(** * JotiCalc: the line store and the evaluation driver of [src/App.vue]

    The widget keeps an ordered list of calculator lines and one shared table
    of variable bindings.  Every expression is evaluated by an external math
    engine (mathjs); the engine is an interface here, and the driver
    ([evaluateLine], [updateAllLinesAfter], [addLine], [handleBackspace], the
    currency registration loop of [fetchCurrency]) is embedded over it. *)

From Stdlib Require Import String Ascii List Lia.
From stdpp Require Import base gmap strings list fin_maps pretty.

(** ** String primitives of the host language

    Strings are sequences of code units below 256.  Only the primitives the
    driver calls are embedded. *)
Module Js.

(** [WhiteSpace] and [LineTerminator] code units below 256, as removed by
    [String.prototype.trim]: TAB, LF, VT, FF, CR, SP and NBSP. *)
Definition isWhiteSpace (c : ascii) : bool :=
  match c with
  | "009" | "010" | "011" | "012" | "013" | " " | "160" => true
  | _ => false
  end%char.

Fixpoint trimStart (s : string) : string :=
  match s with
  | String c s' => if isWhiteSpace c then trimStart s' else s
  | EmptyString => EmptyString
  end.

Definition trimEnd (s : string) : string :=
  String.rev (trimStart (String.rev s)).

Definition trim (s : string) : string := trimEnd (trimStart s).

(** [s.startsWith(p)] *)
Definition startsWith (p s : string) : bool := String.prefix p s.

(** [s.includes(sep)] *)
Fixpoint includes (sep s : string) : bool :=
  String.prefix sep s ||
  match s with
  | String _ s' => includes sep s'
  | EmptyString => false
  end.

(** [s.split(sep)] for a non-empty separator, no limit: the pieces between
    the successive non-overlapping occurrences of [sep], left to right.
    [skip] counts the code units of a matched separator still to drop and
    [cur] is the current piece, reversed. *)
Fixpoint split_go (sep : string) (skip : nat) (cur s : string) : list string :=
  match s with
  | EmptyString => [String.rev cur]
  | String c s' =>
      match skip with
      | S k => split_go sep k cur s'
      | O =>
          if String.prefix sep s
          then String.rev cur :: split_go sep (String.length sep - 1) EmptyString s'
          else split_go sep 0 (String c cur) s'
      end
  end.

Definition split (sep s : string) : list string := split_go sep 0 EmptyString s.

(** ASCII case mapping; code units outside [a-zA-Z] are kept (currency
    codes are ASCII). *)
Definition lowerChar (c : ascii) : ascii :=
  let n := nat_of_ascii c in
  if (65 <=? n) && (n <=? 90) then ascii_of_nat (n + 32) else c.

Definition upperChar (c : ascii) : ascii :=
  let n := nat_of_ascii c in
  if (97 <=? n) && (n <=? 122) then ascii_of_nat (n - 32) else c.

Fixpoint mapChars (f : ascii → ascii) (s : string) : string :=
  match s with
  | EmptyString => EmptyString
  | String c s' => String (f c) (mapChars f s')
  end.

Definition toLowerCase : string → string := mapChars lowerChar.
Definition toUpperCase : string → string := mapChars upperChar.

End Js.

(** ** Data model *)

(** [interface CalculatorLine] *)
Record CalculatorLine : Type := mkLine {
  input : string;
  result : string;
  hasError : bool;
  errorMessage : string
}.

(** What a call of the engine yields: a value, or a thrown error, of which
    only the [message] is kept (an absent message is the empty string: both
    are falsy in the handler's [err.message || 'Unknown error']). *)
Inductive Res (A : Type) : Type :=
| Ok (a : A)
| Thrown (message : string).
Arguments Ok {A} a.
Arguments Thrown {A} message.

(** The three entry points of the math engine that [evaluateLine] calls:
    [math.evaluate(expr, scope)], [math.to(value, unit)] and
    [math.format(value, {precision: 14})].  The engine reads the scope and
    does not write it: an expression handed to it holds no ['='] (it is a
    piece of a split on ['='], or a text without one), hence no assignment
    of the engine's own syntax.  Each entry point is a function of its
    arguments: an engine whose answer to the same call changes from one call
    to the next (an expression that draws a random number, a unit that is
    defined between two calls, as [fetchCurrency] does when the rates
    arrive) is one engine per answer here, and a statement about several
    calls of one engine holds for the source only while the engine answers
    alike. *)
Class MathEngine (V : Type) : Type := {
  math_evaluate : string → gmap string V → Res V;
  math_to : V → string → Res V;
  math_format : V → Res string
}.

(** The first-party state: [lines], [variables], and a ghost call trace
    [evaluated] listing the indices at which [evaluateLine] was entered,
    oldest first. *)
Record State (V : Type) : Type := mkState {
  lines : list CalculatorLine;
  variables : gmap string V;
  evaluated : list nat
}.
Arguments mkState {V} lines variables evaluated.
Arguments lines {V} s.
Arguments variables {V} s.
Arguments evaluated {V} s.

(** How a handler ends: it returns, or an uncaught [TypeError] escapes it
    (a property access on an [undefined] line). *)
Inductive Outcome (V : Type) : Type :=
| Returns (st : State V)
| TypeError (st : State V).
Arguments Returns {V} st.
Arguments TypeError {V} st.

Definition finalState {V : Type} (o : Outcome V) : State V :=
  match o with Returns st | TypeError st => st end.

(** ** The body of the [try] block: a computation over the binding table
    that may throw, the table keeping the writes made before the throw. *)
Definition Try (V A : Type) : Type := gmap string V → gmap string V * Res A.

Global Instance try_ret {V : Type} : MRet (Try V) :=
  λ A (a : A) vars, (vars, Ok a).

Global Instance try_bind {V : Type} : MBind (Try V) :=
  λ A B (k : A → Try V B) (m : Try V A) vars,
    match m vars with
    | (vars', Ok a) => k a vars'
    | (vars', Thrown msg) => (vars', Thrown msg)
    end.

Definition throw {V A : Type} (msg : string) : Try V A := λ vars, (vars, Thrown msg).

(** Calling the engine: the table is read, not written. *)
Definition call {V A : Type} (f : gmap string V → Res A) : Try V A :=
  λ vars, (vars, f vars).

(** [variables[varName] = value].  The table is a JavaScript object: every
    key stores a property of its own, except ["__proto__"], which is the
    prototype accessor and stores none.  (With an object value that write
    replaces the prototype of the table; the names it would make visible to
    the engine by inheritance are outside this model.) *)
Definition assign {V : Type} (varName : string) (value : V) : Try V unit :=
  λ vars,
    if decide (varName = "__proto__") then (vars, Ok tt)
    else (<[varName := value]> vars, Ok tt).

Section Driver.
Context {V : Type} `{!MathEngine V}.

(** [const [varName, expression] = input.split('=').map(part => part.trim())]:
    the first two pieces of the split on every ['='], trimmed. *)
Definition assignmentParts (input : string) : option (string * string) :=
  match Js.trim <$> Js.split "=" input with
  | varName :: expression :: _ => Some (varName, expression)
  | _ => None
  end.

(** [const [fromExpr, toUnit] = expression.split(' to ').map(part => part.trim())] *)
Definition conversionParts (expression : string) : option (string * string) :=
  match Js.trim <$> Js.split " to " expression with
  | fromExpr :: toUnit :: _ => Some (fromExpr, toUnit)
  | _ => None
  end.

(** Lines 128-149: what the [try] block does on the trimmed [input].  The
    [None] cases of the destructurings cannot occur after the [includes]
    tests (see [assignmentParts_includes]); there the source would read a
    property of [undefined] inside the [try]. *)
Definition tryBlock (input : string) : Try V string :=
  if Js.includes "=" input then
    match assignmentParts input with
    | Some (varName, expression) =>
        if Js.includes " to " expression then
          match conversionParts expression with
          | Some (fromExpr, toUnit) =>
              valueWithUnit ← call (math_evaluate fromExpr);
              converted ← call (λ _, math_to valueWithUnit toUnit);
              assign varName converted;;
              call (λ _, math_format converted)
          | None => throw "Cannot read properties of undefined"
          end
        else
          value ← call (math_evaluate expression);
          assign varName value;;
          call (λ _, math_format value)
    | None => throw "Cannot read properties of undefined"
    end
  else
    value ← call (math_evaluate input);
    call (λ _, math_format value).

(** Lines 121-123. *)
Definition cleared (line : CalculatorLine) : CalculatorLine :=
  mkLine (input line) "" false "".

(** Lines 151-152 after a [try] block that stored [res] in [line.result]. *)
Definition succeeded (line : CalculatorLine) (res : string) : CalculatorLine :=
  mkLine (input line) res false "".

(** Lines 153-157: the [catch] handler. *)
Definition failed (line : CalculatorLine) (message : string) : CalculatorLine :=
  mkLine (input line) "Error" true
         (if decide (message = "") then "Unknown error" else message).

(** Line 120: [!input || input.startsWith('//')]. *)
Definition skipped (input : string) : bool :=
  bool_decide (input = "") || Js.startsWith "//" input.

(** Lines 117-157 for a line that exists: everything [evaluateLine] does
    before it calls [updateAllLinesAfter]; the flag is [false] when the
    early [return] of line 124 is taken. *)
Definition evaluateOwn (index : nat) (line : CalculatorLine) (st : State V)
  : State V * bool :=
  let input := Js.trim (input line) in
  if skipped input then
    (mkState (<[index := cleared line]> (lines st)) (variables st) (evaluated st), false)
  else
    match tryBlock input (variables st) with
    | (vars, Ok res) =>
        (mkState (<[index := succeeded line res]> (lines st)) vars (evaluated st), true)
    | (vars, Thrown msg) =>
        (mkState (<[index := failed line msg]> (lines st)) vars (evaluated st), true)
    end.

(** Ghost step: [evaluateLine(index)] was entered. *)
Definition enter (index : nat) (st : State V) : State V :=
  mkState (lines st) (variables st) (evaluated st ++ [index]).

(** [evaluateLine] (lines 116-161) and the loop of [updateAllLinesAfter]
    (lines 164-168) from its current counter [i].  The two call each other;
    [fuel] bounds the depth of the calls, [None] is fuel exhausted. *)
Fixpoint evaluateLine (fuel index : nat) (st : State V) {struct fuel}
  : option (Outcome V) :=
  match fuel with
  | O => None
  | S fuel' =>
      let st := enter index st in
      match lines st !! index with
      | None => Some (TypeError st)
      | Some line =>
          match evaluateOwn index line st with
          | (st', false) => Some (Returns st')
          | (st', true) => updateLoop fuel' (index + 1) st'
          end
      end
  end
with updateLoop (fuel i : nat) (st : State V) {struct fuel}
  : option (Outcome V) :=
  if i <? length (lines st) then
    match fuel with
    | O => None
    | S fuel' =>
        match evaluateLine fuel' i st with
        | Some (Returns st') => updateLoop fuel' (i + 1) st'
        | other => other
        end
    end
  else Some (Returns st).

(** [updateAllLinesAfter(startIndex)] *)
Definition updateAllLinesAfter (fuel startIndex : nat) (st : State V)
  : option (Outcome V) :=
  updateLoop fuel (startIndex + 1) st.

(** The [forEach] of [onMounted] (lines 263-265):
    [lines.value.forEach((_, index) => evaluateLine(index))], one full
    pass over the indices present when it starts. *)
Fixpoint forEachIndex (fuel : nat) (indices : list nat) (st : State V)
  : option (Outcome V) :=
  match indices with
  | [] => Some (Returns st)
  | index :: rest =>
      match evaluateLine fuel index st with
      | Some (Returns st') => forEachIndex fuel rest st'
      | other => other
      end
  end.

Definition evaluateAllLines (fuel : nat) (st : State V) : option (Outcome V) :=
  forEachIndex fuel (seq 0 (length (lines st))) st.

(** Lines 172-177. *)
Definition newLine : CalculatorLine := mkLine "" "" false "".

(** [addLine(index?)], lines 171-183 (the focus change is not part of the
    state): [splice(index, 0, newLine)] clamps [index] to the length,
    [push] appends.  The toolbar button passes its click event, which is
    not a number: that is [None]. *)
Definition addLine (index : option nat) (st : State V) : State V :=
  match index with
  | Some i =>
      mkState (take i (lines st) ++ newLine :: drop i (lines st))
              (variables st) (evaluated st)
  | None => mkState (lines st ++ [newLine]) (variables st) (evaluated st)
  end.

(** [handleBackspace(event, index)], lines 196-214 (without the focus
    change): [splice(index, 1)] when the line is empty and is not the only
    one.  Reading [line.input] of a missing line throws. *)
Definition handleBackspace (index : nat) (st : State V) : Outcome V :=
  match lines st !! index with
  | None => TypeError st
  | Some line =>
      if bool_decide (input line = "") && (1 <? length (lines st)) then
        Returns (mkState (delete index (lines st)) (variables st) (evaluated st))
      else Returns st
  end.

End Driver.

(** ** A small engine for the examples

    Values are natural numbers; an expression is a sum of decimal numerals
    and variable names; nothing has a unit, so every conversion is refused.
    On these expressions it answers as mathjs does. *)
Module Calc.

Fixpoint numeral_go (acc : N) (s : string) : option N :=
  match s with
  | EmptyString => Some acc
  | String c s' =>
      match Ascii.is_nat c with
      | Some d => numeral_go (10 * acc + N.of_nat d) s'
      | None => None
      end
  end.

Definition numeral (s : string) : option N :=
  match s with
  | EmptyString => None
  | _ => numeral_go 0 s
  end.

Definition isLetter (c : ascii) : bool :=
  let n := nat_of_ascii c in
  ((65 <=? n) && (n <=? 90)) || ((97 <=? n) && (n <=? 122)).

Fixpoint allLetters (s : string) : bool :=
  match s with
  | EmptyString => true
  | String c s' => isLetter c && allLetters s'
  end.

Definition term (vars : gmap string N) (t : string) : Res N :=
  match numeral t with
  | Some n => Ok n
  | None =>
      if bool_decide (t ≠ "") && allLetters t then
        match vars !! t with
        | Some v => Ok v
        | None => Thrown ("Undefined symbol " +:+ t)
        end
      else Thrown "Value expected"
  end.

Fixpoint sum (vars : gmap string N) (terms : list string) : Res N :=
  match terms with
  | [] => Ok 0%N
  | t :: rest =>
      match term vars t, sum vars rest with
      | Ok a, Ok b => Ok (a + b)%N
      | Thrown msg, _ => Thrown msg
      | _, Thrown msg => Thrown msg
      end
  end.

Definition evaluate (expr : string) (vars : gmap string N) : Res N :=
  sum vars (Js.trim <$> Js.split "+" expr).

Definition to (value : N) (unit : string) : Res N :=
  Thrown "Unexpected type of argument in function to".

Definition format (value : N) : Res string := Ok (pretty value).

Definition engine : MathEngine N :=
  {| math_evaluate := evaluate; math_to := to; math_format := format |}.

(** A line as typed, before any evaluation. *)
Definition typed (text : string) : CalculatorLine := mkLine text "" false "".

Definition start (texts : list string) : State N :=
  mkState (typed <$> texts) ∅ [].

End Calc.

(** An engine whose errors carry no message ([err.message] is falsy). *)
Module Mute.
Definition engine : MathEngine N :=
  {| math_evaluate := λ _ _, Thrown "";
     math_to := λ _ _, Thrown "";
     math_format := λ _, Thrown "" |}.
End Mute.

(** An engine that evaluates as [Calc] does and whose [format] throws on
    every value. *)
Module Unformattable.
Definition engine : MathEngine N :=
  {| math_evaluate := Calc.evaluate;
     math_to := Calc.to;
     math_format := λ _, Thrown "Unexpected type of argument in function format" |}.
End Unformattable.

(** The split of an assignment as the specification words it: once, on the
    first ['='], the expression being the whole remainder (both trimmed).
    [firstEq_go] cuts the text at the first ['=']; [cur] is the text before
    the current position, reversed. *)
Fixpoint firstEq_go (cur s : string) : option (string * string) :=
  match s with
  | EmptyString => None
  | String c s' =>
      if Ascii.eqb c "="%char
      then Some (String.rev cur, s')
      else firstEq_go (String c cur) s'
  end.

Definition splitOnFirstEq (s : string) : option (string * string) :=
  match firstEq_go EmptyString s with
  | Some (name, remainder) => Some (Js.trim name, Js.trim remainder)
  | None => None
  end.

(** The handlers bound in the template (lines 478-480 and 291): [@input]
    calls [evaluateLine(index)], Enter calls [addLine(index + 1)], the
    toolbar button [addLine] and Backspace [handleBackspace]. *)
Inductive Operation : Type :=
| OpEvaluateLine (index : nat)
| OpAddLine (index : option nat)
| OpHandleBackspace (index : nat).

Definition perform {V : Type} `{!MathEngine V} (fuel : nat) (op : Operation)
    (st : State V) : option (Outcome V) :=
  match op with
  | OpEvaluateLine index => evaluateLine fuel index st
  | OpAddLine index => Some (Returns (addLine index st))
  | OpHandleBackspace index => Some (handleBackspace index st)
  end.

(** ** Relations between states, for the proofs *)
Section Relations.
Context {V : Type}.

(** [st'] comes from [st] by evaluations at the indices [tr], all of them
    at [lo] or above: same length, same texts, lines below [lo] as they
    were. *)
Record extends (lo : nat) (st st' : State V) (tr : list nat) : Prop := {
  ext_length : length (lines st') = length (lines st);
  ext_inputs : input <$> lines st' = input <$> lines st;
  ext_frame : ∀ j, j < lo → lines st' !! j = lines st !! j;
  ext_trace : evaluated st' = evaluated st ++ tr;
  ext_range : ∀ j, j ∈ tr → lo ≤ j < length (lines st)
}.

(** The two states have the same binding table and the same texts, and
    the same line records at the positions in [P]. *)
Definition agree (P : nat → Prop) (sa sb : State V) : Prop :=
  variables sa = variables sb
  ∧ input <$> lines sa = input <$> lines sb
  ∧ ∀ j, P j → lines sa !! j = lines sb !! j.

Definition sameKind (oa ob : Outcome V) : Prop :=
  match oa, ob with
  | Returns _, Returns _ | TypeError _, TypeError _ => True
  | _, _ => False
  end.

(** No line of the notebook is blank or a comment. *)
Definition allEvaluated (st : State V) : Prop :=
  Forall (λ text, skipped (Js.trim text) = false) (input <$> lines st).

End Relations.

(** ** The currency registration loop of [fetchCurrency] (lines 89-109) *)

(** A value of the fetched JSON object, by its [typeof]: a number, or
    anything else (null, boolean, string, array, object). *)
Inductive JsonValue (number : Type) : Type :=
| JNumber (n : number)
| JNotNumber.
Arguments JNumber {number} n.
Arguments JNotNumber {number}.

(** What the loop needs of numbers ([isFinite(rate)], [rate <= 0], the text
    of [1 / rate] in the template literal) and of the engine
    ([math.createUnit(name, definition)], which may throw). *)
Class CurrencyHost (number Units : Type) : Type := {
  isFinite : number → bool;
  nonPositive : number → bool;
  reciprocalText : number → string;
  createUnit : string → string → Units → Res Units
}.

Section Currency.
Context {number Units : Type} `{!CurrencyHost number Units}.

(** Lines 91-99: the test guarding [continue]. *)
Definition skipEntry (currency : string) (rate : JsonValue number) : bool :=
  bool_decide (currency = "usd")
  || bool_decide (currency = "1inch")
  || match rate with
     | JNotNumber => true
     | JNumber r => negb (isFinite r) || nonPositive r
     end.

(** One iteration of the loop.  A throw of the first [createUnit] leaves
    the [try] before the second one is called; both are caught and
    logged. *)
Definition registerCurrency (currency : string) (rate : JsonValue number)
    (units : Units) : Units :=
  if skipEntry currency rate then units
  else
    match rate with
    | JNotNumber => units
    | JNumber r =>
        let definition := reciprocalText r +:+ " USD" in
        match createUnit (Js.toLowerCase currency) definition units with
        | Thrown _ => units
        | Ok units1 =>
            match createUnit (Js.toUpperCase currency) definition units1 with
            | Thrown _ => units1
            | Ok units2 => units2
            end
        end
    end.

(** The loop over [Object.entries(data.usd)], in enumeration order. *)
Definition registerCurrencies (entries : list (string * JsonValue number))
    (units : Units) : Units :=
  foldl (λ u entry, registerCurrency entry.1 entry.2 u) units entries.

(** The entries the specification says are skipped: the [usd] entry and
    those whose rate is not a number, not finite or not positive. *)
Definition malformed (currency : string) (rate : JsonValue number) : Prop :=
  currency = "usd"
  ∨ match rate with
    | JNotNumber => True
    | JNumber r => isFinite r = false ∨ nonPositive r = true
    end.

End Currency.

(** Sample data for the loop: a few rates with the text JavaScript prints
    for their reciprocal, and a unit table on which [createUnit] refuses a
    name that is already defined. *)
Module Sample.

Inductive Rate : Type := Quarter | Half | One | Two | Zero | MinusOne | NotANumber.

Definition host : CurrencyHost Rate (gmap string string) :=
  {| isFinite := λ r, match r with NotANumber => false | _ => true end;
     nonPositive := λ r, match r with Zero | MinusOne => true | _ => false end;
     reciprocalText := λ r,
       match r with
       | Quarter => "4" | Half => "2" | One => "1" | Two => "0.5"
       | Zero => "Infinity" | MinusOne => "-1" | NotANumber => "NaN"
       end;
     createUnit := λ name definition units,
       match units !! name with
       | Some _ => Thrown ("Cannot create unit: a unit with that name already exists")
       | None => Ok (<[name := definition]> units)
       end |}.

(** The units [defineCustomUnits] has created that matter here. *)
Definition builtin : gmap string string := {[ "USD" := "" ]}.

End Sample.

(** ** The rest of the component: editing, mounting, focus, tooltip *)
Section Component.
Context {V : Type} `{!MathEngine V}.

(** The name a line writes in the binding table when it is evaluated, if its
    text makes it an assignment: the first piece of the split of line 130. *)
Definition assignedName (text : string) : option string :=
  let input := Js.trim text in
  if skipped input then None
  else if Js.includes "=" input then fst <$> assignmentParts input
  else None.

(** A line record as [evaluateLine] leaves it: an error flag comes with the
    result ["Error"] and a message, no error flag with no message, and a
    blank or comment line shows nothing. *)
Definition lineSettled (line : CalculatorLine) : Prop :=
  (hasError line = true → result line = "Error" ∧ errorMessage line ≠ "")
  ∧ (hasError line = false → errorMessage line = "")
  ∧ (skipped (Js.trim (input line)) = true →
     result line = "" ∧ hasError line = false).

(** The lines at the positions in [P] are settled. *)
Definition settledAt (P : nat → Prop) (st : State V) : Prop :=
  ∀ j line, P j → lines st !! j = Some line → lineSettled line.

(** Typing in a row (lines 473 and 478): [v-model] stores the text in
    [line.input], then the [@input] handler calls [evaluateLine(index)]. *)
Definition setInput (index : nat) (text : string) (st : State V) : State V :=
  mkState (alter (λ line, mkLine text (result line) (hasError line) (errorMessage line))
                 index (lines st))
          (variables st) (evaluated st).

Definition editLine (fuel index : nat) (text : string) (st : State V)
  : option (Outcome V) :=
  evaluateLine fuel index (setInput index text st).

(** Lines 23-32. *)
Definition initialExpressions : list string :=
  [ "users = 500";
    "dataPerUser = 100 KB";
    "totalData = users * dataPerUser";
    "time = 2 hr + 30 minutes";
    "distance = 5 km + 200 m";
    "temperature = 72 degF to degC";
    "// Try your own calculations below";
    "" ].

(** Lines 254-261: [data.lines || initialExpressions.map(...)].  [persisted]
    is [data.lines] when it is there; an empty array is truthy and is kept. *)
Definition loadLines (persisted : option (list CalculatorLine))
  : list CalculatorLine :=
  match persisted with
  | Some stored => stored
  | None => (λ expr, mkLine expr "" false "") <$> initialExpressions
  end.

(** [onMounted], lines 253-265: the line sequence is replaced by the loaded
    one and every line is evaluated, first to last.  (The calls that define
    units, lines 247-250, act on the engine: see [defineCustomUnits] and
    [fetchCurrency].) *)
Definition onMounted (fuel : nat) (persisted : option (list CalculatorLine))
    (st : State V) : option (Outcome V) :=
  evaluateAllLines fuel (mkState (loadLines persisted) (variables st) (evaluated st)).

End Component.

(** The [nextTick] callback of [addLine], lines 186-192: the index of the
    input that receives the focus, if any, [inputsLength] being the length
    of [lineInputs.value].  [inputs[focusIndex]] is [undefined] outside the
    array, and so is [inputs[-1]]. *)
Definition addLineFocus (index : option nat) (inputsLength : nat) : option nat :=
  match index with
  | Some i => if i <? inputsLength then Some i else None
  | None =>
      match inputsLength with
      | O => None
      | S last => Some last
      end
  end.

(** The [nextTick] callback of [handleBackspace], lines 206-212:
    [Math.min(index, inputs.length - 1)], focused when it is not negative. *)
Definition backspaceFocus (index inputsLength : nat) : option nat :=
  let focusIndex := Z.min (Z.of_nat index) (Z.of_nat inputsLength - 1) in
  if (0 <=? focusIndex)%Z then Some (Z.to_nat focusIndex) else None.

(** The state before the component is mounted (lines 19-20): no line, no
    binding. *)
Definition beforeMount {V : Type} : State V := mkState [] ∅ [].

Section FailingSteps.
Context {V : Type} `{!MathEngine V}.

(** The evaluation or the conversion of a line throws [msg]: on the trimmed
    text [input] and the table [vars], [math.evaluate] throws it (line 147
    for a text without ['='], line 141 for the expression of an assignment,
    line 135 for the source of a conversion), or [math.to] throws it on the
    value of the source (line 136). *)
Definition evaluationFails (input : string) (vars : gmap string V) (msg : string)
  : Prop :=
  if Js.includes "=" input then
    match assignmentParts input with
    | Some (_, expression) =>
        if Js.includes " to " expression then
          match conversionParts expression with
          | Some (fromExpr, toUnit) =>
              match math_evaluate fromExpr vars with
              | Thrown thrown => thrown = msg
              | Ok valueWithUnit => math_to valueWithUnit toUnit = Thrown msg
              end
          | None => False
          end
        else math_evaluate expression vars = Thrown msg
    | None => False
    end
  else math_evaluate input vars = Thrown msg.

(** The name and the value of the assignment that the line makes when its
    evaluation (and conversion) succeeds: [varName] of line 130 with
    [converted] of line 136 or [value] of line 141. *)
Definition assignedValue (input : string) (vars : gmap string V)
  : option (string * V) :=
  if Js.includes "=" input then
    match assignmentParts input with
    | Some (varName, expression) =>
        if Js.includes " to " expression then
          match conversionParts expression with
          | Some (fromExpr, toUnit) =>
              match math_evaluate fromExpr vars with
              | Ok valueWithUnit =>
                  match math_to valueWithUnit toUnit with
                  | Ok converted => Some (varName, converted)
                  | Thrown _ => None
                  end
              | Thrown _ => None
              end
          | None => None
          end
        else
          match math_evaluate expression vars with
          | Ok value => Some (varName, value)
          | Thrown _ => None
          end
    | None => None
    end
  else None.

End FailingSteps.

(** The tooltip element, by the properties the handlers write:
    [textContent] and the inline styles [top], [left] and [opacity]. *)
Record Tooltip : Type := mkTooltip {
  textContent : string;
  styleTop : string;
  styleLeft : string;
  styleOpacity : string
}.

(** [showTooltip(event, message)], lines 225-236.  [tooltip] is
    [tooltip.value] ([None] for [null]); [topText] and [leftText] are the
    values of the two template literals, pixel arithmetic on the rectangle
    of the hovered element. *)
Definition showTooltip (tooltip : option Tooltip) (topText leftText message : string)
  : option Tooltip :=
  match tooltip with
  | None => None
  | Some shown =>
      if bool_decide (message = "") then Some shown
      else Some (mkTooltip message topText leftText "1")
  end.

(** [hideTooltip()], lines 239-243. *)
Definition hideTooltip (tooltip : option Tooltip) : option Tooltip :=
  match tooltip with
  | None => None
  | Some shown =>
      Some (mkTooltip (textContent shown) (styleTop shown) (styleLeft shown) "0")
  end.

(** ** [defineCustomUnits] (lines 35-74) *)

(** The second argument of [math.createUnit]: a definition text, or the
    options of a new base unit ([{ baseName: ... }]). *)
Inductive UnitDefinition : Type :=
| DefinedAs (text : string)
| BaseUnit (baseName : string).

(** [math.createUnit(name, definition)] on the engine's unit table; it may
    throw. *)
Class UnitEngine (Units : Type) : Type := {
  createUnitWith : string → UnitDefinition → Units → Res Units
}.

(** The calls of lines 38-68, in order. *)
Definition customUnits : list (string * UnitDefinition) :=
  [ ("KB", DefinedAs "1024 bytes");
    ("MB", DefinedAs "1024 KB");
    ("GB", DefinedAs "1024 MB");
    ("TB", DefinedAs "1024 GB");
    ("PB", DefinedAs "1024 TB");
    ("USD", BaseUnit "currency");
    ("Kbps", DefinedAs "1000 bit/s");
    ("Mbps", DefinedAs "1000 Kbps");
    ("Gbps", DefinedAs "1000 Mbps");
    ("MP", DefinedAs "1000000");
    ("DPI", DefinedAs "1 inch^-1");
    ("PPI", DefinedAs "1 inch^-1");
    ("like", DefinedAs "1");
    ("view", DefinedAs "1");
    ("impression", DefinedAs "1");
    ("engagement", DefinedAs "1");
    ("LOC", DefinedAs "1");
    ("FP", DefinedAs "1");
    ("PR", DefinedAs "1");
    ("issue", DefinedAs "1");
    ("bug", DefinedAs "1") ].

Section CustomUnits.
Context {Units : Type} `{!UnitEngine Units}.

(** A sequence of [createUnit] calls inside one [try]: the first throw
    leaves the block, what was defined before it stays. *)
Fixpoint defineInOrder (definitions : list (string * UnitDefinition))
    (units : Units) : Units :=
  match definitions with
  | [] => units
  | (name, definition) :: rest =>
      match createUnitWith name definition units with
      | Ok units' => defineInOrder rest units'
      | Thrown _ => units
      end
  end.

Definition defineCustomUnits (units : Units) : Units :=
  defineInOrder customUnits units.

(** [units'] is reached from [units] by these definitions, all accepted. *)
Inductive accepted : list (string * UnitDefinition) → Units → Units → Prop :=
| accepted_nil units : accepted [] units units
| accepted_cons name definition rest units units1 units2 :
    createUnitWith name definition units = Ok units1 →
    accepted rest units1 units2 →
    accepted ((name, definition) :: rest) units units2.

End CustomUnits.

(** ** [fetchCurrency] as a whole (lines 76-113) *)

(** What the request gave: a throw of [fetch] or of [response.json()], a
    response that is not [ok], a body without a truthy [usd], or the entries
    of [data.usd] in enumeration order. *)
Inductive Fetched (number : Type) : Type :=
| FetchThrew
| ResponseNotOk
| NoRates
| Rates (entries : list (string * JsonValue number)).
Arguments FetchThrew {number}.
Arguments ResponseNotOk {number}.
Arguments NoRates {number}.
Arguments Rates {number} entries.

(** Every throw is caught and logged by the outer [catch]. *)
Definition fetchCurrency {number Units : Type} `{!CurrencyHost number Units}
    (fetched : Fetched number) (units : Units) : Units :=
  match fetched with
  | Rates entries => registerCurrencies entries units
  | _ => units
  end.

(** A unit table on which [createUnit] refuses a name that is already
    defined, for the examples. *)
Module SampleUnits.

Definition engine : UnitEngine (gmap string UnitDefinition) :=
  {| createUnitWith := λ name definition units,
       match units !! name with
       | Some _ => Thrown ("Cannot create unit: a unit with that name already exists")
       | None => Ok (<[name := definition]> units)
       end |}.

End SampleUnits.

(** An engine that answers as [Calc] does, except that it refuses every
    text holding a ['=']. *)
Module Strict.
Definition engine : MathEngine N :=
  {| math_evaluate := λ expr vars,
       if Js.includes "=" expr then Thrown "Unexpected operator ="
       else Calc.evaluate expr vars;
     math_to := Calc.to;
     math_format := Calc.format |}.
End Strict.

(** ** The reference pass: every line evaluated once, first to last *)
Section ReferencePass.
Context {V : Type} `{!MathEngine V}.

(** The text that a line hands to [math.evaluate]: the text itself when it
    holds no ['='], else the expression of the assignment or, for a
    conversion, its source (lines 147, 141, 135). *)
Definition evaluatedExpr (input : string) : option string :=
  if Js.includes "=" input then
    match assignmentParts input with
    | Some (_, expression) =>
        if Js.includes " to " expression then
          match conversionParts expression with
          | Some (fromExpr, _) => Some fromExpr
          | None => None
          end
        else Some expression
    | None => None
    end
  else Some input.

Definition evaluatedText (text : string) : option string :=
  if skipped (Js.trim text) then None else evaluatedExpr (Js.trim text).

(** The table and the record that the own evaluation of a line with the
    text [text] leaves, on the table [vars]. *)
Definition ownTable (text : string) (vars : gmap string V) : gmap string V :=
  if skipped (Js.trim text) then vars else (tryBlock (Js.trim text) vars).1.

Definition ownRecord (text : string) (vars : gmap string V) : CalculatorLine :=
  if skipped (Js.trim text) then mkLine text "" false ""
  else
    match (tryBlock (Js.trim text) vars).2 with
    | Ok res => succeeded (mkLine text "" false "") res
    | Thrown msg => failed (mkLine text "" false "") msg
    end.

(** The table after the lines with the texts [texts] were evaluated once
    each, in order, from the table [vars]; and after the first [k] of them. *)
Definition tableAfter (texts : list string) (vars : gmap string V) : gmap string V :=
  foldl (λ table text, ownTable text table) vars texts.

Definition tableAt (texts : list string) (vars : gmap string V) (k : nat)
  : gmap string V :=
  tableAfter (take k texts) vars.

(** In the reference pass no line from [k] on changes the value under
    [name]. *)
Definition closedFrom (texts : list string) (vars : gmap string V) (k : nat)
    (name : string) : Prop :=
  ∀ j, k ≤ j → tableAt texts vars (S j) !! name = tableAt texts vars j !! name.

(** The table [table] holds what the reference pass ends with under every
    name that is closed from [k]. *)
Definition settledFrom (texts : list string) (vars : gmap string V) (k : nat)
    (table : gmap string V) : Prop :=
  ∀ name, closedFrom texts vars k name →
          table !! name = tableAfter texts vars !! name.

(** The lines at the positions in [P] hold the records of the reference
    pass. *)
Definition referenceAt (texts : list string) (vars : gmap string V)
    (P : nat → Prop) (st : State V) : Prop :=
  ∀ j line, P j → lines st !! j = Some line →
            ∃ text, texts !! j = Some text
                    ∧ line = ownRecord text (tableAt texts vars j).

End ReferencePass.

(** ** Facts about the string primitives *)
Module JsFacts.
Import Js.

Lemma split_go_nonempty sep skip cur s : split_go sep skip cur s ≠ [].
Proof.
  revert skip cur. induction s as [|c s IH]; intros skip cur; cbn [split_go]; [done|].
  destruct skip as [|k]; [|apply IH].
  destruct (String.prefix sep (String c s)); [done|apply IH].
Qed.

Lemma includes_cons sep c s :
  includes sep (String c s) = String.prefix sep (String c s) || includes sep s.
Proof. reflexivity. Qed.

Lemma split_go_two sep cur s :
  sep ≠ "" → includes sep s = true →
  ∃ a b rest, split_go sep 0 cur s = a :: b :: rest.
Proof.
  intros Hsep. revert cur. induction s as [|c s IH]; intros cur Hinc.
  - destruct sep; [done|discriminate].
  - rewrite includes_cons in Hinc. cbn [split_go].
    destruct (String.prefix sep (String c s)) eqn:Hp.
    + destruct (split_go sep (String.length sep - 1) "" s) as [|b rest] eqn:Hs.
      * by apply split_go_nonempty in Hs.
      * eauto.
    + by apply IH.
Qed.

(** After [s.includes(sep)] the split has at least two pieces. *)
Lemma split_two sep s :
  sep ≠ "" → includes sep s = true → ∃ a b rest, split sep s = a :: b :: rest.
Proof. apply split_go_two. Qed.

Lemma startsWith_app p s : startsWith p (p +:+ s) = true.
Proof.
  unfold startsWith. induction p as [|c p IH].
  - by destruct s.
  - change (String c p +:+ s) with (String c (p +:+ s)). cbn [String.prefix].
    destruct (Ascii.ascii_dec c c); [apply IH|done].
Qed.

Lemma prefix_single a c s :
  String.prefix (String a "") (String c s) = bool_decide (a = c).
Proof.
  cbn [String.prefix]. destruct (Ascii.ascii_dec a c) as [->|Hne].
  - rewrite bool_decide_eq_true_2 by done. by destruct s.
  - by rewrite bool_decide_eq_false_2.
Qed.

(** Without an occurrence of the separator the split is the text itself. *)
Lemma split_go_no_sep sep cur s :
  includes sep s = false → split_go sep 0 cur s = [String.rev_app cur s].
Proof.
  revert cur. induction s as [|c s IH]; intros cur Hinc; [done|].
  rewrite includes_cons in Hinc. apply orb_false_iff in Hinc as [Hp Hinc].
  cbn [split_go]. rewrite Hp. by rewrite IH.
Qed.

(** The first piece of the split on ['='] ends at the first ['=']; the
    other pieces are the split of the remainder. *)
Lemma split_go_firstEq cur s name remainder :
  firstEq_go cur s = Some (name, remainder) →
  split_go "=" 0 cur s = name :: split "=" remainder.
Proof.
  revert cur. induction s as [|c s IH]; intros cur; cbn [firstEq_go]; [done|].
  cbn [split_go]. rewrite prefix_single.
  destruct (Ascii.eqb c "=") eqn:Hc.
  - apply Ascii.eqb_eq in Hc as ->. by intros [= <- <-].
  - apply Ascii.eqb_neq in Hc. rewrite bool_decide_eq_false_2 by done. apply IH.
Qed.

End JsFacts.

(** The destructuring of line 130 always finds its two pieces. *)
Lemma assignmentParts_includes (input : string) :
  Js.includes "=" input = true → is_Some (assignmentParts input).
Proof.
  intros Hinc. unfold assignmentParts.
  destruct (JsFacts.split_two "=" input) as (a & b & rest & ->); [done..|].
  simpl. eauto.
Qed.

(** Where the remainder after the first ['='] holds no further ['='], the
    source's split is the split of the specification. *)
Lemma assignmentParts_single_separator (s name remainder : string) :
  firstEq_go "" s = Some (name, remainder) →
  Js.includes "=" remainder = false →
  assignmentParts s = splitOnFirstEq s.
Proof.
  intros Hfirst Hnone. unfold assignmentParts, splitOnFirstEq, Js.split.
  rewrite Hfirst, (JsFacts.split_go_firstEq _ _ _ _ Hfirst).
  unfold Js.split. by rewrite JsFacts.split_go_no_sep.
Qed.

Lemma conversionParts_includes (expression : string) :
  Js.includes " to " expression = true → is_Some (conversionParts expression).
Proof.
  intros Hinc. unfold conversionParts.
  destruct (JsFacts.split_two " to " expression) as (a & b & rest & ->); [done..|].
  simpl. eauto.
Qed.

(** ** The cascade: unfolding, fuel and frame *)
Section DriverFacts.
Context {V : Type} `{!MathEngine V}.
Implicit Types (st : State V) (line : CalculatorLine) (tr : list nat).

Lemma evaluateLine_S fuel index st :
  evaluateLine (S fuel) index st =
    match lines st !! index with
    | None => Some (TypeError (enter index st))
    | Some line =>
        match evaluateOwn index line (enter index st) with
        | (st', false) => Some (Returns st')
        | (st', true) => updateLoop fuel (index + 1) st'
        end
    end.
Proof. reflexivity. Qed.

Lemma updateLoop_eq fuel i st :
  updateLoop fuel i st =
    if i <? length (lines st) then
      match fuel with
      | O => None
      | S fuel' =>
          match evaluateLine fuel' i st with
          | Some (Returns st') => updateLoop fuel' (i + 1) st'
          | other => other
          end
      end
    else Some (Returns st).
Proof. destruct fuel; reflexivity. Qed.

(** More fuel never changes an outcome. *)
Lemma fuel_step fuel :
  (∀ index st o, evaluateLine fuel index st = Some o →
                 evaluateLine (S fuel) index st = Some o)
  ∧ (∀ i st o, updateLoop fuel i st = Some o →
               updateLoop (S fuel) i st = Some o).
Proof.
  induction fuel as [|fuel [IHe IHl]]; split.
  - discriminate.
  - intros i st o. rewrite !updateLoop_eq. by destruct (i <? _).
  - intros index st o. rewrite (evaluateLine_S (S fuel)), evaluateLine_S.
    destruct (lines st !! index) as [line|]; [|done].
    destruct (evaluateOwn _ _ _) as [st1 [|]]; [apply IHl|done].
  - intros i st o. rewrite (updateLoop_eq (S (S fuel))), (updateLoop_eq (S fuel)).
    destruct (i <? _); [|done].
    destruct (evaluateLine fuel i st) as [[st1|st1]|] eqn:He; [| |done].
    + rewrite (IHe _ _ _ He). apply IHl.
    + by rewrite (IHe _ _ _ He).
Qed.

Lemma evaluateLine_fuel_le fuel fuel' index st o :
  fuel ≤ fuel' → evaluateLine fuel index st = Some o →
  evaluateLine fuel' index st = Some o.
Proof. induction 1; [done|]. intros. by apply fuel_step, IHle. Qed.

Lemma updateLoop_fuel_le fuel fuel' i st o :
  fuel ≤ fuel' → updateLoop fuel i st = Some o →
  updateLoop fuel' i st = Some o.
Proof. induction 1; [done|]. intros. by apply fuel_step, IHle. Qed.

(** The line's own evaluation rewrites the line at [index] and nothing
    else of the list; the text of the line stays. *)
Lemma evaluateOwn_shape index line st st' b :
  evaluateOwn index line st = (st', b) →
  ∃ line', lines st' = <[index := line']> (lines st)
           ∧ input line' = input line
           ∧ evaluated st' = evaluated st.
Proof.
  unfold evaluateOwn. destruct (skipped _).
  - intros [= <- <-]. eexists; simpl; eauto.
  - destruct (tryBlock _ _) as [vars [res|msg]];
      intros [= <- <-]; eexists; simpl; eauto.
Qed.

Lemma extends_refl lo st : extends lo st st [].
Proof.
  split; try done.
  - by rewrite app_nil_r.
  - intros j Hj. by apply elem_of_nil in Hj.
Qed.

Lemma extends_trans lo lo' st st1 st2 tr1 tr2 :
  lo ≤ lo' → extends lo st st1 tr1 → extends lo' st1 st2 tr2 →
  extends lo st st2 (tr1 ++ tr2).
Proof.
  intros Hlo [L1 I1 F1 T1 R1] [L2 I2 F2 T2 R2]. split.
  - congruence.
  - congruence.
  - intros j Hj. rewrite F2 by lia. by apply F1.
  - by rewrite T2, T1, app_assoc.
  - intros j [Hj|Hj]%elem_of_app.
    + by apply R1.
    + apply R2 in Hj. lia.
Qed.

Lemma extends_own index line st st1 b :
  lines st !! index = Some line →
  evaluateOwn index line (enter index st) = (st1, b) →
  extends index st st1 [index].
Proof.
  intros Hline Hown.
  destruct (evaluateOwn_shape _ _ _ _ _ Hown) as (line' & Hl & Hin & Htr).
  simpl in Hl, Htr. split.
  - by rewrite Hl, length_insert.
  - rewrite Hl, list_fmap_insert, Hin. apply list_insert_id.
    by rewrite list_lookup_fmap, Hline.
  - intros j Hj. rewrite Hl. apply list_lookup_insert_ne. lia.
  - done.
  - intros j ->%list_elem_of_singleton. apply lookup_lt_Some in Hline. lia.
Qed.

(** With fuel for the depth of the calls the cascade returns: a call on an
    existing line ends normally after its own evaluation [st1], and when
    it did not leave by the early [return] every later line was entered. *)
Lemma cascade_runs fuel :
  (∀ index st line,
      lines st !! index = Some line →
      2 * (length (lines st) - index) + 1 ≤ fuel →
      ∃ st1 b st' tr,
        evaluateOwn index line (enter index st) = (st1, b)
        ∧ evaluateLine fuel index st = Some (Returns st')
        ∧ extends (index + 1) st1 st' tr
        ∧ if b then ∀ j, index < j < length (lines st) → j ∈ tr
          else st' = st1 ∧ tr = [])
  ∧ (∀ i st,
        2 * (length (lines st) - i) + 2 ≤ fuel →
        ∃ st' tr,
          updateLoop fuel i st = Some (Returns st')
          ∧ extends i st st' tr
          ∧ ∀ j, i ≤ j < length (lines st) → j ∈ tr).
Proof.
  induction fuel as [|fuel [IHe IHl]]; (split; [intros index st line Hline Hf|intros i st Hf]);
    [lia|lia| |].
  - rewrite evaluateLine_S, Hline.
    destruct (evaluateOwn index line (enter index st)) as [st1 b] eqn:Hown.
    pose proof (extends_own _ _ _ _ _ Hline Hown) as E1.
    pose proof (lookup_lt_Some _ _ _ Hline) as Hlt.
    destruct b.
    + destruct (IHl (index + 1) st1) as (st' & tr & Hrun & E2 & Hall).
      { rewrite (ext_length _ _ _ _ E1). lia. }
      exists st1, true, st', tr. split_and!; [done..|].
      intros j Hj. apply Hall. rewrite (ext_length _ _ _ _ E1). lia.
    + exists st1, false, st1, []. split_and!; [done|done| |done|done].
      apply extends_refl.
  - rewrite updateLoop_eq. destruct (i <? length (lines st)) eqn:Hlt.
    + apply Nat.ltb_lt in Hlt.
      destruct (lookup_lt_is_Some_2 (lines st) i Hlt) as [line Hline].
      destruct (IHe i st line Hline) as (st1 & b & st2 & tr1 & Hown & Hrun & E2 & Hb);
        [lia|].
      rewrite Hrun.
      pose proof (extends_own _ _ _ _ _ Hline Hown) as E1.
      assert (extends i st st2 ([i] ++ tr1)) as E12.
      { eapply extends_trans; [|exact E1|exact E2]. lia. }
      destruct (IHl (i + 1) st2) as (st3 & tr2 & Hrun3 & E3 & Hall).
      { rewrite (ext_length _ _ _ _ E12). lia. }
      exists st3, (([i] ++ tr1) ++ tr2). split; [done|]. split.
      * eapply extends_trans; [|exact E12|exact E3]. lia.
      * intros j Hj. destruct (decide (j = i)) as [->|Hne].
        { apply elem_of_app. left. apply elem_of_app. left. by apply list_elem_of_singleton. }
        apply elem_of_app. right. apply Hall.
        rewrite (ext_length _ _ _ _ E12). lia.
    + apply Nat.ltb_ge in Hlt. exists st, []. split; [done|]. split.
      * apply extends_refl.
      * intros j Hj. lia.
Qed.

(** Whatever the fuel, an outcome is the one of the cascade. *)
Lemma evaluateLine_outcome fuel index st o line :
  lines st !! index = Some line →
  evaluateLine fuel index st = Some o →
  ∃ st1 b st' tr,
    o = Returns st'
    ∧ evaluateOwn index line (enter index st) = (st1, b)
    ∧ extends index st st1 [index]
    ∧ extends (index + 1) st1 st' tr
    ∧ if b then ∀ j, index < j < length (lines st) → j ∈ tr
      else st' = st1 ∧ tr = [].
Proof.
  intros Hline Hrun.
  set (big := fuel + (2 * (length (lines st) - index) + 1)).
  destruct (proj1 (cascade_runs big) index st line Hline)
    as (st1 & b & st' & tr & Hown & Hbig & E & Hb); [unfold big; lia|].
  apply (evaluateLine_fuel_le fuel big) in Hrun; [|unfold big; lia].
  rewrite Hbig in Hrun. injection Hrun as <-.
  exists st1, b, st', tr. split_and!; try done.
  by eapply extends_own.
Qed.

Lemma evaluateLine_missing fuel index st o :
  lines st !! index = None →
  evaluateLine fuel index st = Some o → o = TypeError (enter index st).
Proof.
  intros Hnone. destruct fuel as [|fuel]; [done|].
  rewrite evaluateLine_S, Hnone. congruence.
Qed.

Lemma evaluateLine_length fuel index st o :
  evaluateLine fuel index st = Some o →
  length (lines (finalState o)) = length (lines st).
Proof.
  intros Hrun. destruct (lines st !! index) as [line|] eqn:Hline.
  - destruct (evaluateLine_outcome _ _ _ _ _ Hline Hrun)
      as (st1 & b & st' & tr & -> & _ & E1 & E2 & _).
    simpl. by rewrite (ext_length _ _ _ _ E2), (ext_length _ _ _ _ E1).
  - by rewrite (evaluateLine_missing _ _ _ _ Hline Hrun).
Qed.

(** A full pass returns when it has fuel for a cascade from the first
    line. *)
Lemma forEachIndex_total fuel indices st :
  (∀ j, j ∈ indices → j < length (lines st)) →
  2 * length (lines st) + 1 ≤ fuel →
  ∃ st', forEachIndex fuel indices st = Some (Returns st')
         ∧ length (lines st') = length (lines st).
Proof.
  revert st. induction indices as [|index rest IH]; intros st Hin Hfuel; simpl.
  - by exists st.
  - destruct (lookup_lt_is_Some_2 (lines st) index) as [line Hline].
    { apply Hin. by left. }
    destruct (proj1 (cascade_runs fuel) index st line Hline)
      as (st1 & b & st2 & tr & Hown & -> & E2 & _); [lia|].
    pose proof (extends_own _ _ _ _ _ Hline Hown) as E1.
    assert (length (lines st2) = length (lines st)) as Hlen.
    { by rewrite (ext_length _ _ _ _ E2), (ext_length _ _ _ _ E1). }
    destruct (IH st2) as (st' & Hrun & Hlen').
    + intros j Hj. rewrite Hlen. apply Hin. by right.
    + lia.
    + exists st'. split; [done|]. by rewrite Hlen'.
Qed.

Lemma evaluateAllLines_total fuel st :
  2 * length (lines st) + 1 ≤ fuel →
  ∃ st', evaluateAllLines fuel st = Some (Returns st').
Proof.
  intros Hfuel. destruct (forEachIndex_total fuel (seq 0 (length (lines st))) st)
    as (st' & Hrun & _); [|done|by exists st'].
  intros j Hj%elem_of_seq. lia.
Qed.

End DriverFacts.

(** ** Two runs over the same texts and the same binding table *)
Section Agreement.
Context {V : Type} `{!MathEngine V}.
Implicit Types (sa sb : State V) (P : nat → Prop).

Lemma agree_length P sa sb : agree P sa sb → length (lines sa) = length (lines sb).
Proof. intros (_ & Hin & _). by rewrite <- (length_fmap input), Hin, length_fmap. Qed.

Lemma agree_weaken P Q sa sb :
  (∀ j, Q j → P j) → agree P sa sb → agree Q sa sb.
Proof. intros HQ (Hv & Hin & Hl). split_and!; auto. Qed.

Lemma agree_input P sa sb j la lb :
  agree P sa sb → lines sa !! j = Some la → lines sb !! j = Some lb →
  input la = input lb.
Proof.
  intros (_ & Hin & _) Ha Hb.
  assert ((input <$> lines sa) !! j = (input <$> lines sb) !! j) as Hj by by rewrite Hin.
  rewrite !list_lookup_fmap, Ha, Hb in Hj. by injection Hj.
Qed.

Lemma agree_own P sa sb index la lb sa1 b :
  agree P sa sb →
  lines sa !! index = Some la → lines sb !! index = Some lb →
  evaluateOwn index la (enter index sa) = (sa1, b) →
  ∃ sb1, evaluateOwn index lb (enter index sb) = (sb1, b)
         ∧ agree (λ j, P j ∨ j = index) sa1 sb1.
Proof.
  intros Hag Ha Hb Hown.
  pose proof (agree_input _ _ _ _ _ _ Hag Ha Hb) as Hin.
  destruct Hag as (Hv & Hins & Hl).
  pose proof (lookup_lt_Some _ _ _ Ha) as Hlta.
  pose proof (lookup_lt_Some _ _ _ Hb) as Hltb.
  assert (∀ la' lb' (va vb : gmap string V) ea eb,
    la' = lb' → va = vb →
    agree (λ j, P j ∨ j = index)
      (mkState (<[index := la']> (lines sa)) va ea)
      (mkState (<[index := lb']> (lines sb)) vb eb)) as Hins'.
  { intros la' lb' va vb ea eb -> ->. split_and!; simpl; [done| |].
    - by rewrite !list_fmap_insert, Hins.
    - intros j Hj. destruct (decide (j = index)) as [->|Hne].
      + by rewrite !list_lookup_insert_eq.
      + rewrite !list_lookup_insert_ne by done. destruct Hj; [auto|done]. }
  unfold evaluateOwn in *. simpl in *. rewrite <- Hin, <- Hv.
  destruct (skipped _).
  - injection Hown as <- <-. eexists; split; [done|]. apply Hins'; [|done].
    unfold cleared. by rewrite Hin.
  - destruct (tryBlock _ _) as [vars [res|msg]]; injection Hown as <- <-;
      (eexists; split; [done|]; apply Hins'; [|done]).
    + unfold succeeded. by rewrite Hin.
    + unfold failed. by rewrite Hin.
Qed.

(** From agreeing states the cascade takes the same course, and the lines
    it evaluates come out the same. *)
Lemma agree_run fuel :
  (∀ index P sa sb oa,
      agree P sa sb → evaluateLine fuel index sa = Some oa →
      ∃ ob, evaluateLine fuel index sb = Some ob ∧ sameKind oa ob
            ∧ agree (λ j, P j ∨ j = index) (finalState oa) (finalState ob))
  ∧ (∀ i P sa sb oa,
        agree P sa sb → updateLoop fuel i sa = Some oa →
        ∃ ob, updateLoop fuel i sb = Some ob ∧ sameKind oa ob
              ∧ agree P (finalState oa) (finalState ob)).
Proof.
  induction fuel as [|fuel [IHe IHl]]; split.
  - discriminate.
  - intros i P sa sb oa Hag. rewrite !updateLoop_eq.
    rewrite <- (agree_length _ _ _ Hag). destruct (i <? _); [discriminate|].
    intros [= <-]. by exists (Returns sb).
  - intros index P sa sb oa Hag. rewrite !evaluateLine_S.
    destruct (lines sa !! index) as [la|] eqn:Ha.
    + destruct (lookup_lt_is_Some_2 (lines sb) index) as [lb Hb].
      { rewrite <- (agree_length _ _ _ Hag). by eapply lookup_lt_Some. }
      rewrite Hb.
      destruct (evaluateOwn index la (enter index sa)) as [sa1 b] eqn:Hown.
      destruct (agree_own _ _ _ _ _ _ _ _ Hag Ha Hb Hown) as (sb1 & -> & Hag1).
      destruct b.
      * intros Hrun. by apply (IHl _ _ _ _ _ Hag1) in Hrun.
      * intros [= <-]. by exists (Returns sb1).
    + assert (lines sb !! index = None) as ->.
      { apply lookup_ge_None. rewrite <- (agree_length _ _ _ Hag).
        by apply lookup_ge_None. }
      intros [= <-]. exists (TypeError (enter index sb)). split_and!; [done..|].
      pose proof (agree_length _ _ _ Hag) as Hlen.
      destruct Hag as (Hv & Hin & Hl). split_and!; simpl; [done..|].
      intros j [Hj| ->]; [auto|].
      rewrite Ha. symmetry. apply lookup_ge_None.
      rewrite <- Hlen. by apply lookup_ge_None.
  - intros i P sa sb oa Hag. rewrite (updateLoop_eq (S fuel) i sa), (updateLoop_eq (S fuel) i sb).
    rewrite <- (agree_length _ _ _ Hag). destruct (i <? _); [|intros [= <-]; by exists (Returns sb)].
    destruct (evaluateLine fuel i sa) as [[sa1|sa1]|] eqn:Hrun; [| |discriminate].
    + destruct (IHe _ _ _ _ _ Hag Hrun) as ([sb1|sb1] & -> & Hk & Hag1); [|done].
      apply IHl. eapply agree_weaken; [|exact Hag1]. simpl. auto.
    + destruct (IHe _ _ _ _ _ Hag Hrun) as ([sb1|sb1] & -> & Hk & Hag1); [done|].
      intros [= <-]. exists (TypeError sb1). split_and!; [done..|].
      eapply agree_weaken; [|exact Hag1]. simpl. auto.
Qed.

Lemma evaluateLine_inputs fuel index sa o :
  evaluateLine fuel index sa = Some o →
  input <$> lines (finalState o) = input <$> lines sa.
Proof.
  intros Hrun. destruct (lines sa !! index) as [line|] eqn:Hline.
  - destruct (evaluateLine_outcome _ _ _ _ _ Hline Hrun)
      as (st1 & b & st' & tr & -> & _ & E1 & E2 & _).
    simpl. by rewrite (ext_inputs _ _ _ _ E2), (ext_inputs _ _ _ _ E1).
  - by rewrite (evaluateLine_missing _ _ _ _ Hline Hrun).
Qed.

Lemma forEachIndex_inputs fuel indices sa o :
  forEachIndex fuel indices sa = Some o →
  input <$> lines (finalState o) = input <$> lines sa.
Proof.
  revert sa. induction indices as [|index rest IH]; intros sa; simpl.
  - by intros [= <-].
  - destruct (evaluateLine fuel index sa) as [[sa1|sa1]|] eqn:Hrun; [| |done].
    + intros Hrest. rewrite (IH _ Hrest).
      apply (evaluateLine_inputs _ _ _ _ Hrun).
    + intros [= <-]. apply (evaluateLine_inputs _ _ _ _ Hrun).
Qed.

(** A full pass from agreeing states makes every visited line the same. *)
Lemma agree_forEach fuel indices P sa sb sa' :
  agree P sa sb → forEachIndex fuel indices sa = Some (Returns sa') →
  ∃ sb', forEachIndex fuel indices sb = Some (Returns sb')
         ∧ agree (λ j, P j ∨ j ∈ indices) sa' sb'.
Proof.
  revert P sa sb. induction indices as [|index rest IH]; intros P sa sb Hag; simpl.
  - intros [= <-]. exists sb. split; [done|].
    eapply agree_weaken; [|exact Hag]. intros j [Hj|Hj]; [done|].
    by apply elem_of_nil in Hj.
  - destruct (evaluateLine fuel index sa) as [[sa1|sa1]|] eqn:Hrun; [| |done].
    + destruct (proj1 (agree_run fuel) _ _ _ _ _ Hag Hrun)
        as ([sb1|sb1] & -> & Hk & Hag1); [|done].
      intros Hrest. destruct (IH _ _ _ Hag1 Hrest) as (sb' & Hrun' & Hag').
      exists sb'. split; [done|]. eapply agree_weaken; [|exact Hag'].
      simpl. intros j [Hj|Hj]; [auto|].
      apply elem_of_cons in Hj as [->|Hj]; auto.
    + discriminate.
Qed.

End Agreement.

(** ** How often the cascade enters a line *)
Section CascadeCount.
Context {V : Type} `{!MathEngine V}.
Implicit Types (st : State V).

Lemma allEvaluated_inputs st st' :
  input <$> lines st' = input <$> lines st → allEvaluated st → allEvaluated st'.
Proof. unfold allEvaluated. by intros ->. Qed.

Lemma allEvaluated_lookup st index line :
  allEvaluated st → lines st !! index = Some line →
  skipped (Js.trim (input line)) = false.
Proof.
  intros Hall Hline. apply (proj1 (Forall_lookup _ _) Hall index).
  by rewrite list_lookup_fmap, Hline.
Qed.

Lemma evaluateOwn_flag index line st st1 b :
  evaluateOwn index line st = (st1, b) →
  b = negb (skipped (Js.trim (input line))).
Proof.
  unfold evaluateOwn. destruct (skipped _); [by intros [= _ <-]|].
  by destruct (tryBlock _ _) as [vars [res|msg]]; intros [= _ <-].
Qed.

(** In a notebook without blank lines, the loop started at [i] enters the
    line at [j] exactly [2 ^ (j - i)] times, and a call at [index] enters
    the line [d] places below it [2 ^ (d - 1)] times. *)
Lemma cascade_count fuel :
  (∀ index st st',
      allEvaluated st → index < length (lines st) →
      evaluateLine fuel index st = Some (Returns st') →
      ∃ tr, evaluated st' = evaluated st ++ tr
            ∧ ∀ j, count_occ Nat.eq_dec tr j
                   = (if decide (j = index) then 1 else 0)
                     + (if decide (index + 1 ≤ j < length (lines st))
                        then 2 ^ (j - (index + 1)) else 0))
  ∧ (∀ i st st',
        allEvaluated st →
        updateLoop fuel i st = Some (Returns st') →
        ∃ tr, evaluated st' = evaluated st ++ tr
              ∧ ∀ j, count_occ Nat.eq_dec tr j
                     = if decide (i ≤ j < length (lines st))
                       then 2 ^ (j - i) else 0).
Proof.
  induction fuel as [|fuel [IHe IHl]]; split.
  - discriminate.
  - intros i st st' _. rewrite updateLoop_eq.
    destruct (i <? length (lines st)) eqn:Hlt; [discriminate|].
    apply Nat.ltb_ge in Hlt. intros [= <-]. exists []. split; [by rewrite app_nil_r|].
    intros j. simpl. case_decide; [lia|done].
  - intros index st st' Hall Hlt. rewrite evaluateLine_S.
    destruct (lookup_lt_is_Some_2 (lines st) index Hlt) as [line Hline].
    rewrite Hline.
    destruct (evaluateOwn index line (enter index st)) as [st1 b] eqn:Hown.
    pose proof (extends_own _ _ _ _ _ Hline Hown) as E1.
    rewrite (evaluateOwn_flag _ _ _ _ _ Hown),
      (allEvaluated_lookup _ _ _ Hall Hline). simpl.
    intros Hrun. apply IHl in Hrun as (tr & Htr & Hcount).
    2:{ eapply allEvaluated_inputs; [apply (ext_inputs _ _ _ _ E1)|done]. }
    exists (index :: tr). split.
    + rewrite Htr, (ext_trace _ _ _ _ E1). by rewrite <- app_assoc.
    + intros j. rewrite (ext_length _ _ _ _ E1) in Hcount.
      simpl. rewrite Hcount. destruct (Nat.eq_dec index j); repeat case_decide; lia.
  - intros i st st' Hall. rewrite updateLoop_eq.
    destruct (i <? length (lines st)) eqn:Hlt.
    2:{ apply Nat.ltb_ge in Hlt. intros [= <-]. exists []. split; [by rewrite app_nil_r|].
        intros j. simpl. case_decide; [lia|done]. }
    apply Nat.ltb_lt in Hlt.
    destruct (evaluateLine fuel i st) as [[st1|st1]|] eqn:Hrun; [|discriminate..].
    pose proof (evaluateLine_inputs _ _ _ _ Hrun) as Hin. simpl in Hin.
    pose proof (evaluateLine_length _ _ _ _ Hrun) as Hlen. simpl in Hlen.
    destruct (IHe _ _ _ Hall Hlt Hrun) as (tr1 & Htr1 & Hc1).
    intros Hrest. apply IHl in Hrest as (tr2 & Htr2 & Hc2).
    2:{ by eapply allEvaluated_inputs. }
    exists (tr1 ++ tr2). split.
    + by rewrite Htr2, Htr1, app_assoc.
    + intros j. rewrite count_occ_app, Hc1, Hc2, Hlen.
      repeat case_decide; try lia.
      * subst j. by rewrite Nat.sub_diag.
      * replace (j - i) with (S (j - (i + 1))) by lia.
        rewrite Nat.pow_succ_r'. lia.
Qed.

End CascadeCount.

(** ** The claims about the evaluation driver *)

(** C10: on every finite line sequence and from every index the pair
    [evaluateLine] / [updateAllLinesAfter] terminates: with fuel for twice
    the number of lines from [index] on (and any amount more) both produce an
    outcome, and every call made below the first one is at an index strictly
    larger than [index] and smaller than the number of lines. *)
Theorem evaluateLine_terminates {V : Type} {E : MathEngine V}
    (st : State V) (index extra : nat) :
  let fuel := 2 * (length (lines st) - index) + 2 + extra in
  (∃ o tr, evaluateLine fuel index st = Some o
           ∧ evaluated (finalState o) = evaluated st ++ index :: tr
           ∧ Forall (λ j, index < j < length (lines st)) tr)
  ∧ (∃ st' tr, updateAllLinesAfter fuel index st = Some (Returns st')
               ∧ evaluated st' = evaluated st ++ tr
               ∧ Forall (λ j, index < j < length (lines st)) tr).
Proof.
  intros fuel. split.
  - destruct (lines st !! index) as [line|] eqn:Hline.
    + destruct (proj1 (cascade_runs fuel) index st line Hline)
        as (st1 & b & st' & tr & Hown & Hrun & E2 & _); [unfold fuel; lia|].
      pose proof (extends_own _ _ _ _ _ Hline Hown) as E1.
      exists (Returns st'), tr. split_and!; [done| |].
      * simpl. rewrite (ext_trace _ _ _ _ E2), (ext_trace _ _ _ _ E1).
        by rewrite <- app_assoc.
      * apply Forall_forall. intros j Hj. apply (ext_range _ _ _ _ E2) in Hj.
        rewrite (ext_length _ _ _ _ E1) in Hj. lia.
    + exists (TypeError (enter index st)), []. split_and!; [|done|done].
      unfold fuel. replace (_ + 2 + extra) with (S (2 * (length (lines st) - index) + 1 + extra)) by lia.
      by rewrite evaluateLine_S, Hline.
  - destruct (proj2 (cascade_runs fuel) (index + 1) st)
      as (st' & tr & Hrun & Ex & _); [unfold fuel; lia|].
    exists st', tr. split_and!; [done| |].
    + apply (ext_trace _ _ _ _ Ex).
    + apply Forall_forall. intros j Hj. apply (ext_range _ _ _ _ Ex) in Hj. lia.
Qed.

(** C7: a line whose trimmed text is empty or starts with the comment marker
    gets an empty result, no error and an empty error message, whatever
    follows the marker; [evaluateLine] then returns with every other line
    and the binding table as they were. *)
Theorem comment_or_empty_line_cleared {V : Type} {E : MathEngine V}
    (st : State V) (index fuel : nat) (line : CalculatorLine) :
  lines st !! index = Some line →
  (Js.trim (input line) = "" ∨ ∃ rest, Js.trim (input line) = "//" +:+ rest) →
  evaluateLine (S fuel) index st =
    Some (Returns (mkState (<[index := mkLine (input line) "" false ""]> (lines st))
                           (variables st)
                           (evaluated st ++ [index]))).
Proof.
  intros Hline Hskip. rewrite evaluateLine_S, Hline. unfold evaluateOwn.
  assert (skipped (Js.trim (input line)) = true) as ->; [|done].
  unfold skipped. destruct Hskip as [->|[rest ->]]; [done|].
  by rewrite JsFacts.startsWith_app, orb_true_r.
Qed.

Lemma comment_or_empty_line_cleared_witness :
  let line := mkLine "  // x = 2 +" "Error" true "Value expected" in
  let st := mkState [mkLine "x = 1" "1" false ""; line] {[ "x" := 1%N ]} [] in
  lines st !! 1 = Some line
  ∧ @evaluateLine N Calc.engine 1 1 st
    = Some (Returns (mkState [mkLine "x = 1" "1" false ""; mkLine "  // x = 2 +" "" false ""]
                             (variables st) [1])).
Proof.
  intros line st. split; [reflexivity|].
  apply (comment_or_empty_line_cleared (E := Calc.engine) st 1 0 line).
  - reflexivity.
  - right. exists " x = 2 +". reflexivity.
Defined.

(** C4 as stated fails where the engine's error has no message: the handler
    then stores its own text, not the engine's (empty) one. *)
Lemma errorMessage_fallback_counterexample :
  @math_evaluate N Mute.engine "1 + 1" ∅ = Thrown ""
  ∧ ∃ st' line',
      @evaluateLine N Mute.engine 3 0 (Calc.start ["1 + 1"]) = Some (Returns st')
      ∧ lines st' !! 0 = Some line'
      ∧ hasError line' = true
      ∧ errorMessage line' = "Unknown error"
      ∧ errorMessage line' ≠ "".
Proof.
  split; [reflexivity|].
  eexists _, _. split_and!; [vm_compute; reflexivity|reflexivity..|discriminate].
Qed.

(** C4 (amended): when a step of the [try] block of an evaluated line throws
    with message [msg], the line ends with [hasError = true], result
    ["Error"] and as error message [msg], or ["Unknown error"] when [msg] is
    empty; the call still returns normally and every later line is entered
    after it. *)
Theorem failing_line_reported {V : Type} {E : MathEngine V}
    (st : State V) (index extra : nat) (line : CalculatorLine)
    (vars' : gmap string V) (msg : string) :
  lines st !! index = Some line →
  Js.trim (input line) ≠ "" →
  Js.startsWith "//" (Js.trim (input line)) = false →
  tryBlock (Js.trim (input line)) (variables st) = (vars', Thrown msg) →
  ∃ st' tr,
    evaluateLine (2 * (length (lines st) - index) + 1 + extra) index st
      = Some (Returns st')
    ∧ lines st' !! index
      = Some (mkLine (input line) "Error" true
                     (if decide (msg = "") then "Unknown error" else msg))
    ∧ evaluated st' = evaluated st ++ index :: tr
    ∧ ∀ j, index < j < length (lines st) → j ∈ tr.
Proof.
  intros Hline Hne Hcomment Htry.
  destruct (proj1 (cascade_runs (2 * (length (lines st) - index) + 1 + extra))
              index st line Hline)
    as (st1 & b & st' & tr & Hown & Hrun & E2 & Hb); [lia|].
  pose proof (extends_own _ _ _ _ _ Hline Hown) as E1.
  unfold evaluateOwn in Hown. unfold skipped in Hown.
  rewrite bool_decide_eq_false_2, Hcomment in Hown by done.
  simpl in Hown. rewrite Htry in Hown. injection Hown as <- <-.
  exists st', tr. split_and!; [done| | |done].
  - rewrite (ext_frame _ _ _ _ E2) by lia. simpl.
    apply list_lookup_insert_eq. by eapply lookup_lt_Some.
  - rewrite (ext_trace _ _ _ _ E2), (ext_trace _ _ _ _ E1).
    by rewrite <- app_assoc.
Qed.

Lemma failing_line_reported_witness :
  let st := Calc.start ["y = x"; "x = 1"] in
  ∃ st' tr,
    @evaluateLine N Calc.engine (2 * (2 - 0) + 1 + 0) 0 st = Some (Returns st')
    ∧ lines st' !! 0
      = Some (mkLine "y = x" "Error" true
                (if decide ("Undefined symbol x" = "") then "Unknown error"
                 else "Undefined symbol x"))
    ∧ evaluated st' = [] ++ 0 :: tr
    ∧ ∀ j, 0 < j < 2 → j ∈ tr.
Proof.
  intros st.
  apply (failing_line_reported (E := Calc.engine) st 0 0 (Calc.typed "y = x")
           ∅ "Undefined symbol x").
  - reflexivity.
  - discriminate.
  - reflexivity.
  - reflexivity.
Defined.




(** C1: the cascade does not evaluate each later line exactly once.  A call
    on an evaluated line re-enters every later line, and each of those calls
    cascades again: with three assignments the third line is entered twice
    and its self-referential assignment is applied twice.  A call on a blank
    line returns before the cascade and enters no later line. *)
Theorem cascade_not_once_per_line :
  (∃ st',
      @evaluateLine N Calc.engine 7 0 (Calc.start ["x = 1"; "y = 2"; "x = x + 1"])
        = Some (Returns st')
      ∧ evaluated st' = [0; 1; 2; 2]
      ∧ result <$> lines st' = ["1"; "2"; "3"]
      ∧ variables st' !! "x" = Some 3%N)
  ∧ (∃ st',
        @evaluateLine N Calc.engine 7 0 (Calc.start [""; "1 + 1"]) = Some (Returns st')
        ∧ evaluated st' = [0]
        ∧ result <$> lines st' = [""; ""]).
Proof.
  split; eexists; (split_and!; [vm_compute; reflexivity|reflexivity..]).
Qed.

(** C3: the expression is not the whole remainder after the first ['=']:
    the text is split on every ['='] and only the first two pieces are
    used, so what follows a second ['='] is dropped. *)
Theorem assignment_drops_after_second_separator :
  assignmentParts "ok = 2 == 2" = Some ("ok", "2")
  ∧ splitOnFirstEq "ok = 2 == 2" = Some ("ok", "2 == 2")
  ∧ ∃ st',
      @evaluateLine N Calc.engine 3 0 (Calc.start ["ok = 2 == 2"]) = Some (Returns st')
      ∧ lines st' = [mkLine "ok = 2 == 2" "2" false ""]
      ∧ variables st' !! "ok" = Some 2%N.
Proof.
  split_and!; [reflexivity..|].
  eexists. split_and!; [vm_compute; reflexivity|reflexivity..].
Qed.

(** C2 as stated fails: Backspace on an empty line removes it and evaluates
    nothing.  The line that follows keeps the result it had, where an
    evaluation would have produced another one. *)
Lemma backspace_evaluates_nothing_counterexample :
  let st := mkState [mkLine "" "" false ""; mkLine "x = x + 1" "2" false ""]
                    {[ "x" := 2%N ]} [] in
  ∃ st',
    @handleBackspace N 0 st = Returns st'
    ∧ lines st' = [mkLine "x = x + 1" "2" false ""]
    ∧ evaluated st' = []
    ∧ ∃ st'', @evaluateLine N Calc.engine 3 0 st' = Some (Returns st'')
              ∧ lines st'' = [mkLine "x = x + 1" "3" false ""].
Proof.
  intros st. eexists. split_and!; [reflexivity..|].
  eexists. split; [vm_compute; reflexivity|reflexivity].
Qed.

(** C2 (amended): Backspace on an empty line, when it is not the only line,
    removes that line and nothing else: no line is evaluated, the lines that
    remain keep their results, and the binding table is not reset, so every
    binding stays, also one that the removed line had contributed. *)
Theorem backspace_removes_line_only {V : Type}
    (st : State V) (index : nat) (line : CalculatorLine) :
  lines st !! index = Some line →
  input line = "" →
  1 < length (lines st) →
  handleBackspace index st
    = Returns (mkState (delete index (lines st)) (variables st) (evaluated st)).
Proof.
  intros Hline Hinput Hlen. unfold handleBackspace. rewrite Hline.
  rewrite bool_decide_eq_true_2 by done.
  by apply Nat.ltb_lt in Hlen as ->.
Qed.

Lemma backspace_removes_line_only_witness :
  let st := mkState [mkLine "x = 5" "5" false ""; mkLine "" "" false "";
                     mkLine "x + 1" "6" false ""]
                    ({[ "x" := 5%N ]} : gmap string N) [0; 1; 2] in
  handleBackspace 1 st
    = Returns (mkState (delete 1 (lines st)) (variables st) (evaluated st)).
Proof.
  intros st.
  apply (backspace_removes_line_only st 1 (mkLine "" "" false "")).
  - reflexivity.
  - reflexivity.
  - simpl. lia.
Defined.

(** C6 as stated fails: the sequence is not always non-empty.  It is empty
    before the component is mounted, and mounting keeps a stored empty
    array as it is (an empty array is truthy, nothing is seeded), also over
    a state that had a line. *)
Lemma mounted_sequence_can_be_empty_counterexample :
  lines (beforeMount : State N) = []
  ∧ (∃ st', @onMounted N Calc.engine 1 (Some []) beforeMount = Some (Returns st')
            ∧ lines st' = [])
  ∧ (∃ st', @onMounted N Calc.engine 1 (Some []) (Calc.start ["1 + 1"])
            = Some (Returns st')
            ∧ length (lines (Calc.start ["1 + 1"])) = 1
            ∧ length (lines st') = 0).
Proof.
  split_and!; [reflexivity| |]; eexists; split_and!; reflexivity.
Qed.

(** C6 (amended): Backspace on the only line leaves the state as it is; a
    sequence with at least one line keeps at least one under every handler
    (an evaluation, an insertion, a Backspace); and mounting ends with at
    least one line unless an empty sequence was stored: the stored lines,
    or the seeded ones when nothing was stored. *)
Theorem at_least_one_line {V : Type} {E : MathEngine V} :
  (∀ (st : State V) index,
      length (lines st) = 1 → finalState (handleBackspace index st) = st)
  ∧ (∀ fuel op (st : State V) o,
        1 ≤ length (lines st) →
        perform fuel op st = Some o →
        1 ≤ length (lines (finalState o)))
  ∧ (∀ fuel persisted (st : State V) o,
        persisted ≠ Some [] →
        onMounted fuel persisted st = Some o →
        1 ≤ length (lines (finalState o))).
Proof.
  split_and!.
  - intros st index Hlen. unfold handleBackspace.
    destruct (lines st !! index); [|done].
    rewrite Hlen. by rewrite andb_false_r.
  - intros fuel [index|index|index] st o Hlen Hrun; simpl in Hrun.
    + by rewrite (evaluateLine_length _ _ _ _ Hrun).
    + injection Hrun as <-. destruct index; simpl; rewrite length_app; simpl; lia.
    + injection Hrun as <-. unfold handleBackspace.
      destruct (lines st !! index) as [line|] eqn:Hline; [|done].
      destruct (bool_decide _ && (1 <? _)) eqn:Hc; [|done].
      apply andb_true_iff in Hc as [_ Hc%Nat.ltb_lt]. simpl.
      rewrite length_delete by eauto. lia.
  - intros fuel persisted st o Hstored Hrun. unfold onMounted, evaluateAllLines in Hrun.
    pose proof (forEachIndex_inputs _ _ _ _ Hrun) as Hin. simpl in Hin.
    rewrite <- (length_fmap input), Hin, length_fmap.
    destruct persisted as [[|line stored]|]; simpl; [done|lia..].
Qed.

Lemma at_least_one_line_witness :
  let st := Calc.start [""; "1 + 1"] in
  finalState (@handleBackspace N 0 (Calc.start [""])) = Calc.start [""]
  ∧ 1 ≤ length (lines (finalState (@handleBackspace N 0 st)))
  ∧ ∃ o, @onMounted N Calc.engine 17 None (beforeMount : State N) = Some o
         ∧ 1 ≤ length (lines (finalState o)).
Proof.
  intros st. destruct (at_least_one_line (E := Calc.engine)) as (Hnoop & Hkeep & Hload).
  split; [|split].
  - apply Hnoop. reflexivity.
  - apply (Hkeep 0 (OpHandleBackspace 0) st).
    + simpl. lia.
    + reflexivity.
  - eexists. split; [vm_compute; reflexivity|].
    apply (Hload 17 None beforeMount); [discriminate|vm_compute; reflexivity].
Defined.

(** ** The currency registration *)
Section CurrencyFacts.
Context {number Units : Type} `{!CurrencyHost number Units}.

(** The skipped entries leave no trace in what the loop builds. *)
Lemma registerCurrencies_skips (entries : list (string * JsonValue number))
    (units : Units) :
  registerCurrencies entries units
  = registerCurrencies (filter (λ e, skipEntry e.1 e.2 = false) entries) units.
Proof.
  revert units. induction entries as [|[currency rate] entries IH]; intros units;
    [done|].
  rewrite filter_cons. simpl.
  destruct (decide (skipEntry currency rate = false)) as [Hkeep|Hskip].
  - simpl. apply IH.
  - apply not_false_is_true in Hskip. unfold registerCurrencies in *. simpl.
    unfold registerCurrency at 2. rewrite Hskip. apply IH.
Qed.

(** A definition the engine refuses is given up: after a refused
    lower-case name the upper-case one is not tried, after a refused
    upper-case name the lower-case one stays. *)
Lemma registerCurrency_rejected (currency : string) (r : number) (units : Units) :
  skipEntry currency (JNumber r) = false →
  (∀ msg, createUnit (Js.toLowerCase currency) (reciprocalText r +:+ " USD") units
            = Thrown msg →
          registerCurrency currency (JNumber r) units = units)
  ∧ (∀ units1 msg,
        createUnit (Js.toLowerCase currency) (reciprocalText r +:+ " USD") units
          = Ok units1 →
        createUnit (Js.toUpperCase currency) (reciprocalText r +:+ " USD") units1
          = Thrown msg →
        registerCurrency currency (JNumber r) units = units1).
Proof.
  intros Hkeep. unfold registerCurrency. rewrite Hkeep. split.
  - by intros msg ->.
  - by intros units1 msg -> ->.
Qed.

End CurrencyFacts.

(** ** The claim about the currency registration *)

(** C9 as stated fails on the entry [1inch]: its rate is a finite positive
    number and it is not the [usd] entry, yet the loop skips it and defines
    no unit, although the engine would have accepted both definitions. *)
Lemma one_inch_skipped_counterexample :
  ¬ @malformed Sample.Rate _ Sample.host "1inch" (JNumber Sample.Two)
  ∧ @registerCurrency _ _ Sample.host "1inch" (JNumber Sample.Two) Sample.builtin
    = Sample.builtin
  ∧ (∃ u1 u2,
        @createUnit _ _ Sample.host "1inch" "0.5 USD" Sample.builtin = Ok u1
        ∧ @createUnit _ _ Sample.host "1INCH" "0.5 USD" u1 = Ok u2).
Proof.
  split_and!.
  - intros [?|[?|?]]; discriminate.
  - reflexivity.
  - eexists _, _. split; reflexivity.
Qed.

(** C9 (amended): the loop skips, leaving the engine as it is, the entries
    [usd] and [1inch] and those whose rate is not a number, not finite or
    not positive.  For every other entry it defines the lower-case name and
    then the upper-case name, both as the text of [1 / rate] followed by
    [" USD"]: when the engine accepts both, the entry yields exactly these
    two definitions. *)
Theorem registerCurrency_spec {number Units : Type} {H : CurrencyHost number Units}
    (currency : string) (rate : JsonValue number) (units : Units) :
  ((currency = "1inch" ∨ malformed currency rate) →
   registerCurrency currency rate units = units)
  ∧ (∀ r units1 units2,
        currency ≠ "usd" → currency ≠ "1inch" →
        rate = JNumber r → isFinite r = true → nonPositive r = false →
        createUnit (Js.toLowerCase currency) (reciprocalText r +:+ " USD") units
          = Ok units1 →
        createUnit (Js.toUpperCase currency) (reciprocalText r +:+ " USD") units1
          = Ok units2 →
        registerCurrency currency rate units = units2).
Proof.
  split.
  - intros Hskip. unfold registerCurrency.
    assert (skipEntry currency rate = true) as ->; [|done].
    unfold skipEntry. destruct Hskip as [->|[->|Hrate]]; [done..|].
    destruct rate as [r|]; [|by rewrite orb_true_r].
    destruct Hrate as [->| ->]; by rewrite ?orb_true_r.
  - intros r units1 units2 Husd Hinch -> Hfin Hpos Hlow Hup.
    unfold registerCurrency, skipEntry.
    rewrite !bool_decide_eq_false_2, Hfin, Hpos by done. simpl.
    by rewrite Hlow, Hup.
Qed.

Lemma registerCurrency_spec_witness :
  @registerCurrency _ _ Sample.host "usd" (JNumber Sample.One) Sample.builtin
    = Sample.builtin
  ∧ @registerCurrency _ _ Sample.host "eur" (JNumber Sample.Two) Sample.builtin
    = <[ "EUR" := "0.5 USD" ]> (<[ "eur" := "0.5 USD" ]> Sample.builtin).
Proof.
  split.
  - apply (proj1 (registerCurrency_spec (H := Sample.host) "usd"
                    (JNumber Sample.One) Sample.builtin)).
    right. left. reflexivity.
  - apply (proj2 (registerCurrency_spec (H := Sample.host) "eur"
                    (JNumber Sample.Two) Sample.builtin)
             Sample.Two (<[ "eur" := "0.5 USD" ]> Sample.builtin)).
    + discriminate.
    + discriminate.
    + reflexivity.
    + reflexivity.
    + reflexivity.
    + reflexivity.
    + reflexivity.
Defined.

(** ** More about the driver: what a cascade keeps *)
Section CascadeInvariant.
Context {V : Type} `{!MathEngine V}.
Implicit Types (st : State V) (line : CalculatorLine).

(** A property of the state kept by every own evaluation at [lo] or above
    (and by the entry of a call on a missing line) is kept by every call
    and every loop started at [lo] or above. *)
Lemma cascade_invariant (lo : nat) (I : State V → Prop) :
  (∀ j st, lo ≤ j → I st → lines st !! j = None → I (enter j st)) →
  (∀ j line st st1 b,
      lo ≤ j → I st → lines st !! j = Some line →
      evaluateOwn j line (enter j st) = (st1, b) → I st1) →
  ∀ fuel,
    (∀ index st o, lo ≤ index → I st →
                   evaluateLine fuel index st = Some o → I (finalState o))
    ∧ (∀ i st o, lo ≤ i → I st →
                 updateLoop fuel i st = Some o → I (finalState o)).
Proof.
  intros Hmissing Hown. induction fuel as [|fuel [IHe IHl]]; split.
  - discriminate.
  - intros i st o _ HI. rewrite updateLoop_eq.
    destruct (i <? _); [discriminate|]. by intros [= <-].
  - intros index st o Hlo HI. rewrite evaluateLine_S.
    destruct (lines st !! index) as [line|] eqn:Hline.
    + destruct (evaluateOwn index line (enter index st)) as [st1 b] eqn:Hst1.
      pose proof (Hown _ _ _ _ _ Hlo HI Hline Hst1) as HI1.
      destruct b.
      * apply IHl; [lia|done].
      * by intros [= <-].
    + intros [= <-]. by apply Hmissing.
  - intros i st o Hlo HI. rewrite updateLoop_eq.
    destruct (i <? _); [|by intros [= <-]].
    destruct (evaluateLine fuel i st) as [[st1|st1]|] eqn:Hrun; [| |discriminate].
    + apply IHl; [lia|]. apply (IHe _ _ _ Hlo HI Hrun).
    + intros [= <-]. apply (IHe _ _ _ Hlo HI Hrun).
Qed.

End CascadeInvariant.

Section Footprint.
Context {V : Type} `{!MathEngine V}.
Implicit Types (st : State V) (line : CalculatorLine).

(** The own evaluation of a line writes the table at the line's assigned
    name or not at all. *)
Lemma evaluateOwn_footprint index line st st1 b name :
  evaluateOwn index line st = (st1, b) →
  assignedName (input line) ≠ Some name →
  variables st1 !! name = variables st !! name.
Proof.
  unfold evaluateOwn, assignedName. cbv zeta. destruct (skipped _).
  { by intros [= <- <-]. }
  unfold tryBlock, mbind, try_bind, call, assign, throw.
  intros Hown Hname.
  repeat case_match; simplify_eq/=; try done;
    by rewrite lookup_insert_ne by congruence.
Qed.

(** Over fixed texts of which none, from [lo] on, assigns [name], the value
    under [name] is kept by the evaluations at [lo] or above. *)
Lemma footprint_invariant (lo : nat) (texts : list string) (name : string)
    (target : option V) :
  (∀ j text, lo ≤ j → texts !! j = Some text → assignedName text ≠ Some name) →
  let I := λ st, input <$> lines st = texts ∧ variables st !! name = target in
  (∀ j st, lo ≤ j → I st → lines st !! j = None → I (enter j st))
  ∧ (∀ j line st st1 b,
        lo ≤ j → I st → lines st !! j = Some line →
        evaluateOwn j line (enter j st) = (st1, b) → I st1).
Proof.
  intros Hfree I. split.
  - by intros j st _ HI _.
  - intros j line st st1 b Hlo [Hin Hval] Hline Hown. split.
    + rewrite <- Hin. apply (ext_inputs _ _ _ _ (extends_own _ _ _ _ _ Hline Hown)).
    + rewrite <- Hval. apply (evaluateOwn_footprint _ _ _ _ _ _ Hown).
      apply (Hfree j); [done|]. by rewrite <- Hin, list_lookup_fmap, Hline.
Qed.

(** A loop started at [i] keeps the value under a name that no line from
    [i] on assigns. *)
Lemma updateLoop_keeps_unassigned fuel i st o name :
  (∀ j line, i ≤ j → lines st !! j = Some line →
             assignedName (input line) ≠ Some name) →
  updateLoop fuel i st = Some o →
  variables (finalState o) !! name = variables st !! name.
Proof.
  intros Hfree Hrun.
  destruct (footprint_invariant i (input <$> lines st) name (variables st !! name))
    as [Hmissing Hown].
  { intros j text Hj Htext. rewrite list_lookup_fmap in Htext.
    destruct (lines st !! j) as [line|] eqn:Hline; [|done].
    injection Htext as <-. by apply (Hfree j). }
  apply (proj2 (cascade_invariant i _ Hmissing Hown fuel) i st o); done.
Qed.

(** A call on an evaluated line is its own evaluation and then the loop
    over the later lines. *)
Lemma evaluateLine_own_then_loop fuel index st o line :
  lines st !! index = Some line →
  skipped (Js.trim (input line)) = false →
  evaluateLine fuel index st = Some o →
  ∃ fuel' st1,
    evaluateOwn index line (enter index st) = (st1, true)
    ∧ input <$> lines st1 = input <$> lines st
    ∧ updateLoop fuel' (index + 1) st1 = Some o.
Proof.
  intros Hline Hskip Hrun.
  destruct fuel as [|fuel]; [done|]. rewrite evaluateLine_S, Hline in Hrun.
  destruct (evaluateOwn index line (enter index st)) as [st1 b] eqn:Hown.
  pose proof (extends_own _ _ _ _ _ Hline Hown) as E1.
  pose proof (evaluateOwn_flag _ _ _ _ _ Hown) as ->. rewrite Hskip in Hrun.
  exists fuel, st1. rewrite Hskip. split_and!; [done| |done].
  apply (ext_inputs _ _ _ _ E1).
Qed.

(** The texts decide which names are assigned. *)
Lemma unassigned_inputs st st1 lo name :
  input <$> lines st1 = input <$> lines st →
  (∀ j line, lo ≤ j → lines st !! j = Some line →
             assignedName (input line) ≠ Some name) →
  ∀ j line, lo ≤ j → lines st1 !! j = Some line →
            assignedName (input line) ≠ Some name.
Proof.
  intros Hin Hfree j line Hj Hline.
  assert ((input <$> lines st) !! j = Some (input line)) as Htext.
  { by rewrite <- Hin, list_lookup_fmap, Hline. }
  rewrite list_lookup_fmap in Htext.
  destruct (lines st !! j) as [line0|] eqn:Hline0; [|done].
  injection Htext as <-. by apply (Hfree j).
Qed.

End Footprint.

(** X1: a call of [evaluateLine], whatever its index and however it ends,
    keeps the number of lines and the text of every line and leaves the
    lines above [index] as they were; on an index past the last line it
    throws and changes neither the lines nor the binding table. *)
Theorem evaluateLine_frame {V : Type} {E : MathEngine V}
    (fuel index : nat) (st : State V) (o : Outcome V) :
  evaluateLine fuel index st = Some o →
  length (lines (finalState o)) = length (lines st)
  ∧ input <$> lines (finalState o) = input <$> lines st
  ∧ (∀ j, j < index → lines (finalState o) !! j = lines st !! j)
  ∧ (lines st !! index = None →
     (∃ st', o = TypeError st')
     ∧ lines (finalState o) = lines st
     ∧ variables (finalState o) = variables st).
Proof.
  intros Hrun. split_and!.
  - by apply (evaluateLine_length _ _ _ _ Hrun).
  - by apply (evaluateLine_inputs _ _ _ _ Hrun).
  - intros j Hj. destruct (lines st !! index) as [line|] eqn:Hline.
    + destruct (evaluateLine_outcome _ _ _ _ _ Hline Hrun)
        as (st1 & b & st' & tr & -> & _ & E1 & E2 & _).
      simpl. rewrite (ext_frame _ _ _ _ E2) by lia. by apply (ext_frame _ _ _ _ E1).
    + by rewrite (evaluateLine_missing _ _ _ _ Hline Hrun).
  - intros Hline. rewrite (evaluateLine_missing _ _ _ _ Hline Hrun). eauto.
Qed.

Lemma evaluateLine_frame_witness :
  let st := mkState [mkLine "x = 1" "1" false ""; mkLine "y = x" "" false "";
                     mkLine "y + 1" "" false ""] ({[ "x" := 1%N ]}) [] in
  ∃ o, @evaluateLine N Calc.engine 5 1 st = Some o
       ∧ length (lines (finalState o)) = length (lines st)
       ∧ input <$> lines (finalState o) = input <$> lines st
       ∧ (∀ j, j < 1 → lines (finalState o) !! j = lines st !! j)
       ∧ (lines st !! 1 = None →
          (∃ st', o = TypeError st')
          ∧ lines (finalState o) = lines st
          ∧ variables (finalState o) = variables st).
Proof.
  intros st. eexists. split; [vm_compute; reflexivity|].
  apply (evaluateLine_frame (E := Calc.engine) 5 1 st). vm_compute. reflexivity.
Defined.





Section CascadeLength.
Context {V : Type} `{!MathEngine V}.
Implicit Types (st : State V).

(** In a notebook without blank lines the calls double with every line
    below the one evaluated. *)
Lemma cascade_length fuel :
  (∀ index st st',
      allEvaluated st → index < length (lines st) →
      evaluateLine fuel index st = Some (Returns st') →
      ∃ tr, evaluated st' = evaluated st ++ tr
            ∧ length tr = 2 ^ (length (lines st) - (index + 1)))
  ∧ (∀ i st st',
        allEvaluated st →
        updateLoop fuel i st = Some (Returns st') →
        ∃ tr, evaluated st' = evaluated st ++ tr
              ∧ length tr + 1 = 2 ^ (length (lines st) - i)).
Proof.
  induction fuel as [|fuel [IHe IHl]]; split.
  - discriminate.
  - intros i st st' _. rewrite updateLoop_eq.
    destruct (i <? length (lines st)) eqn:Hlt; [discriminate|].
    apply Nat.ltb_ge in Hlt. intros [= <-]. exists []. split; [by rewrite app_nil_r|].
    by replace (length (lines st) - i) with 0 by lia.
  - intros index st st' Hall Hlt. rewrite evaluateLine_S.
    destruct (lookup_lt_is_Some_2 (lines st) index Hlt) as [line Hline].
    rewrite Hline.
    destruct (evaluateOwn index line (enter index st)) as [st1 b] eqn:Hown.
    pose proof (extends_own _ _ _ _ _ Hline Hown) as E1.
    rewrite (evaluateOwn_flag _ _ _ _ _ Hown),
      (allEvaluated_lookup _ _ _ Hall Hline). simpl.
    intros Hrun. apply IHl in Hrun as (tr & Htr & Hlen).
    2:{ eapply allEvaluated_inputs; [apply (ext_inputs _ _ _ _ E1)|done]. }
    exists (index :: tr). split.
    + rewrite Htr, (ext_trace _ _ _ _ E1). by rewrite <- app_assoc.
    + rewrite (ext_length _ _ _ _ E1) in Hlen. simpl. lia.
  - intros i st st' Hall. rewrite updateLoop_eq.
    destruct (i <? length (lines st)) eqn:Hlt.
    2:{ apply Nat.ltb_ge in Hlt. intros [= <-]. exists []. split; [by rewrite app_nil_r|].
        by replace (length (lines st) - i) with 0 by lia. }
    apply Nat.ltb_lt in Hlt.
    destruct (evaluateLine fuel i st) as [[st1|st1]|] eqn:Hrun; [|discriminate..].
    pose proof (evaluateLine_inputs _ _ _ _ Hrun) as Hin. simpl in Hin.
    pose proof (evaluateLine_length _ _ _ _ Hrun) as Hlen. simpl in Hlen.
    destruct (IHe _ _ _ Hall Hlt Hrun) as (tr1 & Htr1 & Hl1).
    intros Hrest. apply IHl in Hrest as (tr2 & Htr2 & Hl2).
    2:{ by eapply allEvaluated_inputs. }
    exists (tr1 ++ tr2). split.
    + by rewrite Htr2, Htr1, app_assoc.
    + rewrite length_app, Hl1. rewrite Hlen in Hl2.
      replace (length (lines st) - i) with (S (length (lines st) - (i + 1))) by lia.
      rewrite Nat.pow_succ_r'. lia.
Qed.

End CascadeLength.

(** X4: in a notebook without blank or comment lines, [evaluateLine(index)]
    enters the line [d] places below [index] exactly [2 ^ (d - 1)] times,
    and makes [2 ^ (n - index - 1)] calls of [evaluateLine] in all, [n]
    being the number of lines. *)
Theorem evaluateLine_call_count {V : Type} {E : MathEngine V}
    (fuel index : nat) (st st' : State V) :
  allEvaluated st →
  index < length (lines st) →
  evaluateLine fuel index st = Some (Returns st') →
  ∃ tr, evaluated st' = evaluated st ++ tr
        ∧ length tr = 2 ^ (length (lines st) - (index + 1))
        ∧ count_occ Nat.eq_dec tr index = 1
        ∧ ∀ j, index < j < length (lines st) →
               count_occ Nat.eq_dec tr j = 2 ^ (j - (index + 1)).
Proof.
  intros Hall Hlt Hrun.
  destruct (proj1 (cascade_count fuel) _ _ _ Hall Hlt Hrun) as (tr & Htr & Hcount).
  destruct (proj1 (cascade_length fuel) _ _ _ Hall Hlt Hrun) as (tr' & Htr' & Hlen).
  assert (tr' = tr) as -> by (apply (app_inv_head (evaluated st)); congruence).
  exists tr. split_and!; [done..| |].
  - rewrite Hcount. repeat case_decide; lia.
  - intros j Hj. rewrite Hcount. repeat case_decide; lia.
Qed.

Lemma evaluateLine_call_count_witness :
  let st := Calc.start ["a = 1"; "b = a + 1"; "c = b + 1"; "a + c"] in
  let st' := mkState
               [mkLine "a = 1" "1" false ""; mkLine "b = a + 1" "2" false "";
                mkLine "c = b + 1" "3" false ""; mkLine "a + c" "4" false ""]
               ({[ "a" := 1%N; "b" := 2%N; "c" := 3%N ]} : gmap string N)
               [0; 1; 2; 3; 3; 2; 3; 3] in
  ∃ tr, evaluated st' = evaluated st ++ tr
        ∧ length tr = 2 ^ (length (lines st) - (0 + 1))
        ∧ count_occ Nat.eq_dec tr 0 = 1
        ∧ ∀ j, 0 < j < length (lines st) →
               count_occ Nat.eq_dec tr j = 2 ^ (j - (0 + 1)).
Proof.
  intros st st'.
  apply (evaluateLine_call_count (E := Calc.engine) 9 0 st st').
  - repeat constructor.
  - simpl. lia.
  - vm_compute. reflexivity.
Defined.

(** ** The texts handed to the engine *)
Module SeparatorFacts.
Import Js.

Lemma includes_eq_cons c s :
  includes "=" (String c s) = bool_decide ("="%char = c) || includes "=" s.
Proof. by rewrite JsFacts.includes_cons, JsFacts.prefix_single. Qed.

Lemma includes_eq_rev_app a b :
  includes "=" (String.rev_app a b) = includes "=" a || includes "=" b.
Proof.
  revert b. induction a as [|c a IH]; intros b; [done|].
  cbn [String.rev_app]. rewrite IH, !includes_eq_cons.
  by destruct (bool_decide _), (includes "=" a), (includes "=" b).
Qed.

Lemma trimStart_no_eq s :
  includes "=" s = false → includes "=" (trimStart s) = false.
Proof.
  induction s as [|c s IH]; [done|]. cbn [trimStart].
  destruct (isWhiteSpace c); [|done].
  rewrite includes_eq_cons. intros [_ Hs]%orb_false_iff. by apply IH.
Qed.

Lemma trim_no_eq s : includes "=" s = false → includes "=" (trim s) = false.
Proof.
  intros Hs. unfold trim, trimEnd, String.rev.
  rewrite includes_eq_rev_app, orb_false_r. apply trimStart_no_eq.
  rewrite includes_eq_rev_app, orb_false_r. by apply trimStart_no_eq.
Qed.

(** No piece of a split on ['='] holds a ['=']. *)
Lemma split_eq_pieces cur s :
  includes "=" cur = false →
  Forall (λ piece, includes "=" piece = false) (split_go "=" 0 cur s).
Proof.
  revert cur. induction s as [|c s IH]; intros cur Hcur; cbn [split_go].
  - apply Forall_singleton. unfold String.rev.
    by rewrite includes_eq_rev_app, Hcur.
  - rewrite JsFacts.prefix_single. destruct (bool_decide ("="%char = c)) eqn:Hc.
    + apply Forall_cons. split.
      * unfold String.rev. by rewrite includes_eq_rev_app, Hcur.
      * by apply IH.
    + apply IH. by rewrite includes_eq_cons, Hc.
Qed.

(** The pieces of any split of a text without ['='] hold none. *)
Lemma split_sub_pieces sep skip cur s :
  includes "=" cur = false → includes "=" s = false →
  Forall (λ piece, includes "=" piece = false) (split_go sep skip cur s).
Proof.
  revert skip cur. induction s as [|c s IH]; intros skip cur Hcur Hs; cbn [split_go].
  - apply Forall_singleton. unfold String.rev.
    by rewrite includes_eq_rev_app, Hcur.
  - rewrite includes_eq_cons in Hs. apply orb_false_iff in Hs as [Hc Hs].
    destruct skip as [|k]; [|by apply IH].
    destruct (String.prefix sep (String c s)).
    + apply Forall_cons. split.
      * unfold String.rev. by rewrite includes_eq_rev_app, Hcur.
      * by apply IH.
    + apply IH; [|done]. by rewrite includes_eq_cons, Hc.
Qed.

End SeparatorFacts.

Lemma assignmentParts_no_eq (input name expression : string) :
  assignmentParts input = Some (name, expression) →
  Js.includes "=" name = false ∧ Js.includes "=" expression = false.
Proof.
  unfold assignmentParts, Js.split.
  pose proof (SeparatorFacts.split_eq_pieces "" input eq_refl) as Hpieces.
  destruct (Js.split_go "=" 0 "" input) as [|a [|b rest]]; [done..|].
  intros [= <- <-].
  apply Forall_cons in Hpieces as [Ha [Hb _]%Forall_cons].
  split; by apply SeparatorFacts.trim_no_eq.
Qed.

Lemma conversionParts_no_eq (expression fromExpr toUnit : string) :
  Js.includes "=" expression = false →
  conversionParts expression = Some (fromExpr, toUnit) →
  Js.includes "=" fromExpr = false.
Proof.
  unfold conversionParts, Js.split. intros Hexpr.
  pose proof (SeparatorFacts.split_sub_pieces " to " 0 "" expression eq_refl Hexpr)
    as Hpieces.
  destruct (Js.split_go " to " 0 "" expression) as [|a [|b rest]]; [done..|].
  intros [= <- <-].
  apply Forall_cons in Hpieces as [Ha _]. by apply SeparatorFacts.trim_no_eq.
Qed.

Section SeparatorFree.
Context {V : Type} (E1 E2 : MathEngine V).
Hypothesis same_evaluate : ∀ expr vars,
  Js.includes "=" expr = false →
  @math_evaluate V E1 expr vars = @math_evaluate V E2 expr vars.
Hypothesis same_to : ∀ value unit, @math_to V E1 value unit = @math_to V E2 value unit.
Hypothesis same_format : ∀ value, @math_format V E1 value = @math_format V E2 value.

Lemma tryBlock_separator_free input vars :
  @tryBlock V E1 input vars = @tryBlock V E2 input vars.
Proof.
  unfold tryBlock. destruct (Js.includes "=" input) eqn:Hinc.
  - destruct (assignmentParts input) as [[name expression]|] eqn:Hparts; [|done].
    destruct (assignmentParts_no_eq _ _ _ Hparts) as [_ Hexpr].
    destruct (Js.includes " to " expression).
    + destruct (conversionParts expression) as [[fromExpr toUnit]|] eqn:Hconv; [|done].
      pose proof (conversionParts_no_eq _ _ _ Hexpr Hconv) as Hfrom.
      unfold mbind, try_bind, call, assign.
      rewrite (same_evaluate _ _ Hfrom).
      destruct (math_evaluate fromExpr vars) as [value|msg]; [|done].
      rewrite same_to. destruct (math_to value toUnit) as [converted|msg]; [|done].
      by rewrite same_format.
    + unfold mbind, try_bind, call, assign.
      rewrite (same_evaluate _ _ Hexpr).
      destruct (math_evaluate expression vars) as [value|msg]; [|done].
      by rewrite same_format.
  - unfold mbind, try_bind, call.
    rewrite (same_evaluate _ _ Hinc).
    destruct (math_evaluate input vars) as [value|msg]; [|done].
    by rewrite same_format.
Qed.

Lemma evaluateOwn_separator_free index line (st : State V) :
  @evaluateOwn V E1 index line st = @evaluateOwn V E2 index line st.
Proof. unfold evaluateOwn. by rewrite tryBlock_separator_free. Qed.

Lemma cascade_separator_free fuel :
  (∀ index (st : State V),
      @evaluateLine V E1 fuel index st = @evaluateLine V E2 fuel index st)
  ∧ (∀ i (st : State V),
        @updateLoop V E1 fuel i st = @updateLoop V E2 fuel i st).
Proof.
  induction fuel as [|fuel [IHe IHl]]; split.
  - done.
  - intros i st. by rewrite !updateLoop_eq.
  - intros index st. rewrite !evaluateLine_S.
    destruct (lines st !! index); [|done]. rewrite evaluateOwn_separator_free.
    by destruct (evaluateOwn _ _ _) as [st1 [|]].
  - intros i st. rewrite (@updateLoop_eq V E1), (@updateLoop_eq V E2).
    destruct (i <? _); [|done]. rewrite IHe.
    by destruct (evaluateLine fuel i st) as [[st1|st1]|].
Qed.

End SeparatorFree.

(** X5: [evaluateLine] never hands the engine a text that holds a ['=']:
    two engines that answer alike on the texts without ['='] (and convert
    and format alike) give the same outcome on every notebook.  So the
    engine's own assignment and comparison syntax is never reached. *)
Theorem engine_never_given_separator {V : Type} (E1 E2 : MathEngine V)
    (fuel index : nat) (st : State V) :
  (∀ expr vars, Js.includes "=" expr = false →
                @math_evaluate V E1 expr vars = @math_evaluate V E2 expr vars) →
  (∀ value unit, @math_to V E1 value unit = @math_to V E2 value unit) →
  (∀ value, @math_format V E1 value = @math_format V E2 value) →
  @evaluateLine V E1 fuel index st = @evaluateLine V E2 fuel index st.
Proof.
  intros Hev Hto Hfmt. by apply (cascade_separator_free E1 E2 Hev Hto Hfmt fuel).
Qed.

Lemma engine_never_given_separator_witness :
  let st := Calc.start ["ok = 2 == 2"; "3 >= 2"; "ok + 1"] in
  @evaluateLine N Calc.engine 7 0 st = @evaluateLine N Strict.engine 7 0 st.
Proof.
  intros st. apply (engine_never_given_separator Calc.engine Strict.engine 7 0 st).
  - intros expr vars Hexpr. simpl. by rewrite Hexpr.
  - reflexivity.
  - reflexivity.
Defined.

(** X6: every error that the handler of a line catches was thrown by one of
    the three engine calls: the destructurings of lines 130 and 134 always
    find their two pieces, so nothing inside the [try] reads a property of
    [undefined]. *)
Theorem line_errors_come_from_engine {V : Type} {E : MathEngine V}
    (input : string) (vars vars' : gmap string V) (msg : string) :
  tryBlock input vars = (vars', Thrown msg) →
  (∃ expr scope, math_evaluate expr scope = Thrown msg)
  ∨ (∃ value unit, math_to value unit = Thrown msg)
  ∨ (∃ value, math_format value = Thrown msg).
Proof.
  unfold tryBlock. destruct (Js.includes "=" input) eqn:Hinc.
  - destruct (assignmentParts_includes _ Hinc) as [[name expression] ->].
    destruct (Js.includes " to " expression) eqn:Hto.
    + destruct (conversionParts_includes _ Hto) as [[fromExpr toUnit] ->].
      unfold mbind, try_bind, call, assign. intros Htry.
      repeat case_match; simplify_eq; eauto 8.
    + unfold mbind, try_bind, call, assign. intros Htry.
      repeat case_match; simplify_eq; eauto 8.
  - unfold mbind, try_bind, call. intros Htry.
    repeat case_match; simplify_eq; eauto 8.
Qed.

Lemma line_errors_come_from_engine_witness :
  (∃ expr scope, @math_evaluate N Calc.engine expr scope = Thrown "Undefined symbol x")
  ∨ (∃ value unit, @math_to N Calc.engine value unit = Thrown "Undefined symbol x")
  ∨ (∃ value, @math_format N Calc.engine value = Thrown "Undefined symbol x").
Proof.
  apply (line_errors_come_from_engine (E := Calc.engine) "y = x" ∅ ∅).
  reflexivity.
Defined.

(** ** Settled lines *)
Section Settled.
Context {V : Type} `{!MathEngine V}.
Implicit Types (st : State V) (line : CalculatorLine) (P : nat → Prop).

Lemma newLine_settled : lineSettled newLine.
Proof. by split_and!. Qed.

(** Whatever the record was, the own evaluation leaves a settled one. *)
Lemma evaluateOwn_settled index line st st1 b :
  evaluateOwn index line st = (st1, b) →
  ∃ line', lines st1 = <[index := line']> (lines st) ∧ lineSettled line'.
Proof.
  unfold evaluateOwn. destruct (skipped _) eqn:Hskip.
  - intros [= <- <-]. eexists. split; [done|]. by split_and!.
  - destruct (tryBlock _ _) as [vars [res|msg]]; intros [= <- <-];
      (eexists; split; [done|]); unfold lineSettled; simpl; rewrite Hskip;
      split_and!; try done.
    intros _. split; [done|]. by case_decide.
Qed.

Lemma settledAt_invariant lo P :
  (∀ j st, lo ≤ j → settledAt P st → lines st !! j = None → settledAt P (enter j st))
  ∧ (∀ j line st st1 b,
        lo ≤ j → settledAt P st → lines st !! j = Some line →
        evaluateOwn j line (enter j st) = (st1, b) → settledAt P st1).
Proof.
  split; [done|].
  intros j line st st1 b _ HP Hline Hown k line' Hk.
  destruct (evaluateOwn_settled _ _ _ _ _ Hown) as (new & -> & Hnew). simpl.
  destruct (decide (j = k)) as [->|Hne].
  - rewrite list_lookup_insert_eq by by eapply lookup_lt_Some. by intros [= <-].
  - rewrite list_lookup_insert_ne by done. by apply HP.
Qed.

Lemma evaluateLine_settledAt P fuel index st o :
  settledAt P st → evaluateLine fuel index st = Some o →
  settledAt P (finalState o).
Proof.
  intros HP Hrun. destruct (settledAt_invariant 0 P) as [Hmissing Hown].
  apply (proj1 (cascade_invariant 0 _ Hmissing Hown fuel) index st o); [lia|done..].
Qed.

(** The line a call was made on is settled when the call returns. *)
Lemma evaluateLine_settles_own fuel index st st' line' :
  evaluateLine fuel index st = Some (Returns st') →
  lines st' !! index = Some line' → lineSettled line'.
Proof.
  intros Hrun Hline'.
  destruct (lines st !! index) as [line|] eqn:Hline.
  - destruct (evaluateLine_outcome _ _ _ _ _ Hline Hrun)
      as (st1 & b & st'' & tr & [= <-] & Hown & E1 & E2 & _).
    rewrite (ext_frame _ _ _ _ E2) in Hline' by lia.
    destruct (evaluateOwn_settled _ _ _ _ _ Hown) as (new & Hl & Hnew).
    pose proof (lookup_lt_Some _ _ _ Hline) as Hlt.
    rewrite Hl in Hline'. simpl in Hline'.
    rewrite list_lookup_insert_eq in Hline' by done.
    by injection Hline' as <-.
  - discriminate (evaluateLine_missing _ _ _ _ Hline Hrun).
Qed.

Lemma forEachIndex_settles fuel indices P st st' :
  settledAt P st → forEachIndex fuel indices st = Some (Returns st') →
  settledAt (λ j, P j ∨ j ∈ indices) st'.
Proof.
  revert P st. induction indices as [|index rest IH]; intros P st HP; simpl.
  - intros [= <-] j line [Hj|Hj]; [by apply HP|by apply elem_of_nil in Hj].
  - destruct (evaluateLine fuel index st) as [[st1|st1]|] eqn:Hrun; [|done..].
    intros Hrest.
    assert (settledAt (λ j, P j ∨ j = index) st1) as HP1.
    { intros j line [Hj| ->] Hline.
      - by apply (evaluateLine_settledAt P _ _ _ _ HP Hrun j).
      - by apply (evaluateLine_settles_own _ _ _ _ _ Hrun Hline). }
    intros j line Hj. apply (IH _ _ HP1 Hrest j).
    destruct Hj as [Hj|[->|Hj]%elem_of_cons]; auto.
Qed.

End Settled.

(** X7: the records stay settled under every handler: when in every line an
    error flag goes with the result ["Error"] and a non-empty message, no
    flag with an empty message, and blank or comment lines show nothing,
    this is so again after [evaluateLine], [addLine] and
    [handleBackspace]. *)
Theorem handlers_keep_lines_settled {V : Type} {E : MathEngine V}
    (fuel : nat) (op : Operation) (st : State V) (o : Outcome V) :
  Forall lineSettled (lines st) →
  perform fuel op st = Some o →
  Forall lineSettled (lines (finalState o)).
Proof.
  intros Hall. destruct op as [index|index|index]; simpl.
  - intros Hrun. apply Forall_lookup. intros j line.
    apply (evaluateLine_settledAt (λ _, True) _ _ _ _) with (2 := Hrun); [|done].
    intros k line' _. by apply (Forall_lookup_1 _ _ _ _ Hall).
  - intros [= <-]. destruct index as [i|]; simpl.
    + apply Forall_app_2; [by apply Forall_take|].
      apply Forall_cons. split; [apply newLine_settled|by apply Forall_drop].
    + apply Forall_app_2; [done|]. apply Forall_singleton, newLine_settled.
  - intros [= <-]. unfold handleBackspace.
    destruct (lines st !! index); [|done].
    destruct (_ && _); [|done]. simpl. by apply Forall_delete.
Qed.

Lemma handlers_keep_lines_settled_witness :
  let st := mkState [mkLine "y = x" "Error" true "Undefined symbol x";
                     mkLine "x = 1" "1" false ""] ({[ "x" := 1%N ]}) [] in
  ∃ o, @perform N Calc.engine 5 (OpEvaluateLine 0) st = Some o
       ∧ Forall lineSettled (lines (finalState o)).
Proof.
  intros st. eexists. split; [vm_compute; reflexivity|].
  apply (handlers_keep_lines_settled (E := Calc.engine) 5 (OpEvaluateLine 0) st).
  - repeat constructor; simpl; discriminate.
  - vm_compute. reflexivity.
Defined.

(** X8: typing in a row settles it again.  After the text of the line at
    [index] is replaced and [evaluateLine(index)] has run, that line has the
    new text, the other texts are as they were, and every record is settled
    when the other records were. *)
Theorem editLine_settles {V : Type} {E : MathEngine V}
    (fuel index : nat) (text : string) (st : State V) (o : Outcome V) :
  index < length (lines st) →
  (∀ j line, j ≠ index → lines st !! j = Some line → lineSettled line) →
  editLine fuel index text st = Some o →
  (∃ st', o = Returns st')
  ∧ input <$> lines (finalState o) = <[index := text]> (input <$> lines st)
  ∧ Forall lineSettled (lines (finalState o)).
Proof.
  unfold editLine. intros Hlt Hothers Hrun.
  destruct (lookup_lt_is_Some_2 (lines st) index Hlt) as [line Hline].
  set (edited := mkLine text (result line) (hasError line) (errorMessage line)).
  assert (lines (setInput index text st) !! index = Some edited) as Hedited.
  { simpl. by rewrite list_lookup_alter_eq, Hline. }
  destruct (evaluateLine_outcome _ _ _ _ _ Hedited Hrun)
    as (st1 & b & st' & tr & -> & _ & _ & _ & _).
  split_and!; [by eexists| |].
  - rewrite (evaluateLine_inputs _ _ _ _ Hrun). simpl. apply list_eq. intros j.
    rewrite list_lookup_fmap. destruct (decide (j = index)) as [->|Hne].
    + rewrite list_lookup_alter_eq, Hline.
      by rewrite list_lookup_insert_eq by by rewrite length_fmap.
    + rewrite list_lookup_alter_ne, list_lookup_insert_ne by done.
      by rewrite list_lookup_fmap.
  - apply Forall_lookup. intros j new Hnew. simpl in Hnew.
    destruct (decide (j = index)) as [->|Hne].
    + by apply (evaluateLine_settles_own _ _ _ _ _ Hrun Hnew).
    + apply (evaluateLine_settledAt (λ k, k ≠ index) _ _ _ _) with (2 := Hrun) (j := j);
        [|done..].
      intros k line' Hk. simpl. rewrite list_lookup_alter_ne by done.
      by apply Hothers.
Qed.

Lemma editLine_settles_witness :
  let st := mkState [mkLine "a = 5" "5" false ""; mkLine "b = a + 1" "6" false ""]
                    ({[ "a" := 5%N; "b" := 6%N ]}) [] in
  ∃ o, @editLine N Calc.engine 5 0 "a = 10" st = Some o
       ∧ (∃ st', o = Returns st')
       ∧ input <$> lines (finalState o) = <[0 := "a = 10"]> (input <$> lines st)
       ∧ Forall lineSettled (lines (finalState o)).
Proof.
  intros st. eexists. split; [vm_compute; reflexivity|].
  apply (editLine_settles (E := Calc.engine) 5 0 "a = 10" st).
  - simpl. lia.
  - intros [|[|j]] line Hj Hline; [done| |done].
    injection Hline as <-. repeat split; simpl; discriminate.
  - vm_compute. reflexivity.
Defined.

(** X9: mounting settles every line, whatever was stored.  With fuel for a
    cascade from the first line [onMounted] returns normally; the texts are
    the stored ones (also when the stored sequence is empty: nothing is
    seeded then), or the eight initial expressions when nothing was stored;
    and every record is settled, stale stored results included. *)
Theorem onMounted_settles {V : Type} {E : MathEngine V}
    (persisted : option (list CalculatorLine)) (st : State V) (extra : nat) :
  ∃ st',
    onMounted (2 * length (loadLines persisted) + 1 + extra) persisted st
      = Some (Returns st')
    ∧ input <$> lines st'
      = match persisted with
        | Some stored => input <$> stored
        | None => initialExpressions
        end
    ∧ Forall lineSettled (lines st').
Proof.
  unfold onMounted.
  set (loaded := mkState (loadLines persisted) (variables st) (evaluated st)).
  destruct (evaluateAllLines_total (2 * length (loadLines persisted) + 1 + extra) loaded)
    as [st' Hrun]; [simpl; lia|].
  exists st'. split_and!; [done| |].
  - unfold evaluateAllLines in Hrun.
    rewrite (forEachIndex_inputs _ _ _ _ Hrun : input <$> lines st' = _).
    simpl. by destruct persisted.
  - unfold evaluateAllLines in Hrun.
    pose proof (forEachIndex_inputs _ _ _ _ Hrun) as Hin. simpl in Hin.
    assert (settledAt (λ _, False) loaded) as H0 by (by intros j line []).
    pose proof (forEachIndex_settles _ _ _ _ _ H0 Hrun) as Hall.
    apply Forall_lookup. intros j line Hline. apply (Hall j line); [|done].
    right. apply elem_of_seq. apply lookup_lt_Some in Hline.
    rewrite <- (length_fmap input), Hin, length_fmap in Hline. simpl in *. lia.
Qed.

(** ** Inserting and removing lines *)

Lemma length_splice_insert {A : Type} (i : nat) (x : A) (l : list A) :
  length (take i l ++ x :: drop i l) = S (length l).
Proof. rewrite length_app, length_cons, length_take, length_drop. lia. Qed.

(** X10: [addLine] followed by Backspace in the new line gives back the
    state: with at least one line before, [handleBackspace] at the place
    where [addLine] put the blank line (the index, clamped to the end, or
    the end for the toolbar button) removes exactly that line. *)
Theorem addLine_then_backspace {V : Type} (st : State V) (index : option nat) :
  1 ≤ length (lines st) →
  handleBackspace
    (match index with
     | Some i => i `min` length (lines st)
     | None => length (lines st)
     end)
    (addLine index st)
  = Returns st.
Proof.
  intros Hlen. destruct st as [l vars tr]. simpl in *.
  unfold handleBackspace, addLine. destruct index as [i|]; simpl.
  - rewrite <- (length_take l i) at 1. rewrite list_lookup_middle by done. simpl.
    rewrite length_splice_insert.
    destruct (1 <? S (length l)) eqn:Hlt; [|apply Nat.ltb_ge in Hlt; lia].
    rewrite <- (length_take l i) at 1. by rewrite delete_middle, take_drop.
  - rewrite list_lookup_middle by done. simpl. rewrite length_app. simpl.
    destruct (1 <? length l + 1) eqn:Hlt; [|apply Nat.ltb_ge in Hlt; lia].
    by rewrite delete_middle, app_nil_r.
Qed.

Lemma addLine_then_backspace_witness :
  let st := mkState [mkLine "a = 5" "5" false ""; mkLine "a + 1" "6" false ""]
                    ({[ "a" := 5%N ]} : gmap string N) [0; 1] in
  handleBackspace (1 `min` length (lines st)) (addLine (Some 1) st) = Returns st.
Proof.
  intros st. apply (addLine_then_backspace st (Some 1)). simpl. lia.
Defined.

(** X11: [addLine(index)] puts one blank line at [index] and shifts the
    lines from [index] on by one, leaving the lines before it and the
    binding table alone; with an index past the end it appends, as the
    call without index does. *)
Theorem addLine_placement {V : Type} (st : State V) (index : nat) :
  variables (addLine (Some index) st) = variables st
  ∧ length (lines (addLine (Some index) st)) = S (length (lines st))
  ∧ (index ≤ length (lines st) →
     lines (addLine (Some index) st) !! index = Some newLine
     ∧ (∀ j, j < index → lines (addLine (Some index) st) !! j = lines st !! j)
     ∧ (∀ j, index ≤ j → lines (addLine (Some index) st) !! S j = lines st !! j))
  ∧ (length (lines st) ≤ index → addLine (Some index) st = addLine None st).
Proof.
  simpl. split_and!; [done|apply length_splice_insert| |].
  - intros Hle. split_and!.
    + apply list_lookup_middle. by rewrite length_take_le.
    + intros j Hj. rewrite lookup_app_l by (rewrite length_take_le; lia).
      by apply lookup_take_lt.
    + intros j Hj. rewrite lookup_app_r by (rewrite length_take_le; lia).
      rewrite length_take_le by done.
      replace (S j - index) with (S (j - index)) by lia. simpl.
      rewrite lookup_drop. f_equal. lia.
  - intros Hge. unfold addLine. by rewrite take_ge, drop_ge.
Qed.

Lemma addLine_placement_witness :
  let st := Calc.start ["a = 5"; "a + 1"] in
  lines (addLine (Some 1) st) !! 1 = Some newLine
  ∧ (∀ j, j < 1 → lines (addLine (Some 1) st) !! j = lines st !! j)
  ∧ (∀ j, 1 ≤ j → lines (addLine (Some 1) st) !! S j = lines st !! j).
Proof.
  intros st. apply (addLine_placement st 1). simpl. lia.
Defined.

(** X12: where the focus goes, when [lineInputs] holds one input per line.
    After [addLine] with an index up to the end, and after the toolbar
    button, the focused index is the one of the new blank line; with an
    index past the end no input is focused.  After a Backspace that removed
    a line the focused index is the removed one, or the last one when the
    last line was removed, and it is always an index of the array. *)
Theorem focus_follows_the_operation {V : Type} (st : State V) (index : nat) :
  (index ≤ length (lines st) →
   addLineFocus (Some index) (length (lines (addLine (Some index) st))) = Some index
   ∧ lines (addLine (Some index) st) !! index = Some newLine)
  ∧ (length (lines st) < index →
     addLineFocus (Some index) (length (lines (addLine (Some index) st))) = None)
  ∧ (addLineFocus None (length (lines (addLine None st))) = Some (length (lines st))
     ∧ lines (addLine None st) !! length (lines st) = Some newLine)
  ∧ (∀ line, lines st !! index = Some line → input line = "" →
             1 < length (lines st) →
             ∃ st', handleBackspace index st = Returns st'
                    ∧ backspaceFocus index (length (lines st'))
                      = Some (index `min` (length (lines st') - 1))
                    ∧ index `min` (length (lines st') - 1) < length (lines st')).
Proof.
  split_and!.
  - intros Hle. split.
    + unfold addLineFocus. simpl. rewrite length_splice_insert.
      by destruct (index <? S (length (lines st))) eqn:Hlt;
        [|apply Nat.ltb_ge in Hlt; lia].
    + by apply (addLine_placement st index).
  - intros Hgt. unfold addLineFocus. simpl. rewrite length_splice_insert.
    by destruct (index <? S (length (lines st))) eqn:Hlt;
      [apply Nat.ltb_lt in Hlt; lia|].
  - unfold addLineFocus. simpl. rewrite length_app. simpl.
    by rewrite Nat.add_1_r.
  - simpl. by apply list_lookup_middle.
  - intros line Hline Hinput Hlen. eexists. split.
    + unfold handleBackspace. rewrite Hline, bool_decide_eq_true_2 by done.
      by apply Nat.ltb_lt in Hlen as ->.
    + simpl. pose proof (lookup_lt_Some _ _ _ Hline) as Hlt.
      rewrite length_delete by eauto. unfold backspaceFocus. cbv zeta.
      destruct (0 <=? _)%Z eqn:Hpos; [|apply Z.leb_gt in Hpos; lia].
      split; [f_equal|]; lia.
Qed.

Lemma focus_follows_the_operation_witness :
  let st := mkState [mkLine "a = 5" "5" false ""; mkLine "" "" false ""]
                    ({[ "a" := 5%N ]} : gmap string N) [] in
  (addLineFocus (Some 2) (length (lines (addLine (Some 2) st))) = Some 2
   ∧ lines (addLine (Some 2) st) !! 2 = Some newLine)
  ∧ addLineFocus (Some 5) (length (lines (addLine (Some 5) st))) = None
  ∧ ∃ st', handleBackspace 1 st = Returns st'
           ∧ backspaceFocus 1 (length (lines st'))
             = Some (1 `min` (length (lines st') - 1))
           ∧ 1 `min` (length (lines st') - 1) < length (lines st').
Proof.
  intros st.
  destruct (focus_follows_the_operation st 2) as (Hadd & _ & _ & _).
  destruct (focus_follows_the_operation st 5) as (_ & Hpast & _ & _).
  destruct (focus_follows_the_operation st 1) as (_ & _ & _ & Hdel).
  split; [|split].
  - apply Hadd. simpl. lia.
  - apply Hpast. simpl. lia.
  - apply (Hdel (mkLine "" "" false "")); [reflexivity|reflexivity|simpl; lia].
Defined.

(** X13: hovering over the result of a settled line shows the tooltip
    exactly when the line has an error, with the line's error message as
    its text; over a line without error the tooltip is left as it is; and
    leaving the result hides it, whatever was shown.  Without a tooltip
    element both handlers do nothing. *)
Theorem tooltip_shows_errors_only (line : CalculatorLine) (shown : Tooltip)
    (topText leftText : string) :
  lineSettled line →
  (hasError line = true →
   showTooltip (Some shown) topText leftText (errorMessage line)
   = Some (mkTooltip (errorMessage line) topText leftText "1"))
  ∧ (hasError line = false →
     showTooltip (Some shown) topText leftText (errorMessage line) = Some shown)
  ∧ (∀ after,
        hideTooltip (showTooltip (Some shown) topText leftText (errorMessage line))
        = Some after → styleOpacity after = "0")
  ∧ showTooltip None topText leftText (errorMessage line) = None
  ∧ hideTooltip None = None.
Proof.
  intros (Herr & Hok & _). split_and!; [| | |done..].
  - intros [_ Hmsg]%Herr. unfold showTooltip. by rewrite bool_decide_eq_false_2.
  - intros Hmsg%Hok. unfold showTooltip. by rewrite bool_decide_eq_true_2.
  - intros after. unfold showTooltip. by destruct (bool_decide _); intros [= <-].
Qed.

Lemma tooltip_shows_errors_only_witness :
  let line := mkLine "y = x" "Error" true "Undefined symbol x" in
  let shown := mkTooltip "" "" "" "0" in
  showTooltip (Some shown) "58px" "240px" (errorMessage line)
  = Some (mkTooltip "Undefined symbol x" "58px" "240px" "1").
Proof.
  intros line shown.
  apply (proj1 (tooltip_shows_errors_only line shown "58px" "240px"
                  ltac:(repeat split; simpl; discriminate))).
  reflexivity.
Defined.

(** ** The unit definitions *)


(** ** The currency request *)
Section FetchFacts.
Context {number Units : Type} `{!CurrencyHost number Units}.

Lemma registerCurrencies_invariant (P : Units → Prop)
    (entries : list (string * JsonValue number)) (units : Units) :
  (∀ currency r name u u',
      (currency, JNumber r) ∈ entries →
      skipEntry currency (JNumber r) = false →
      name = Js.toLowerCase currency ∨ name = Js.toUpperCase currency →
      P u → createUnit name (reciprocalText r +:+ " USD") u = Ok u' → P u') →
  P units → P (registerCurrencies entries units).
Proof.
  revert units. induction entries as [|[currency rate] entries IH];
    intros units Hstep HP; [done|].
  unfold registerCurrencies. simpl. apply IH.
  - intros c r name u u' Hin. apply Hstep. by right.
  - unfold registerCurrency. destruct (skipEntry currency rate) eqn:Hskip; [done|].
    destruct rate as [r|]; [|done].
    assert ((currency, JNumber r) ∈ (currency, JNumber r) :: entries) as Hin by by left.
    destruct (createUnit (Js.toLowerCase currency) _ units) as [units1|] eqn:Hlow;
      [|done].
    pose proof (Hstep _ _ _ _ _ Hin Hskip (or_introl eq_refl) HP Hlow) as HP1.
    destruct (createUnit (Js.toUpperCase currency) _ units1) as [units2|] eqn:Hup;
      [|done].
    apply (Hstep _ _ _ _ _ Hin Hskip (or_intror eq_refl) HP1 Hup).
Qed.

End FetchFacts.

(** X15: [fetchCurrency] never throws and touches the engine only through
    definitions that the engine accepts, each one naming the lower-case or
    the upper-case form of a code of the fetched mapping that passes the
    guard, with the text of [1 / rate] followed by [" USD"]: whatever such
    definitions keep, the whole request keeps, also when it fails. *)
Theorem fetchCurrency_only_accepted_definitions {number Units : Type}
    {H : CurrencyHost number Units} (P : Units → Prop)
    (fetched : Fetched number) (units : Units) :
  P units →
  (∀ currency r name u u',
      (∃ entries, fetched = Rates entries ∧ (currency, JNumber r) ∈ entries) →
      skipEntry currency (JNumber r) = false →
      name = Js.toLowerCase currency ∨ name = Js.toUpperCase currency →
      P u → createUnit name (reciprocalText r +:+ " USD") u = Ok u' → P u') →
  P (fetchCurrency fetched units).
Proof.
  intros HP Hstep. destruct fetched as [| | |entries]; [done..|]. simpl.
  apply registerCurrencies_invariant; [|done].
  intros currency r name u u' Hin. apply Hstep. eauto.
Qed.

Lemma fetchCurrency_only_accepted_definitions_witness :
  @fetchCurrency _ _ Sample.host
     (Rates [("usd", JNumber Sample.One); ("eur", JNumber Sample.Two);
             ("USD", JNumber Sample.One); ("xau", JNotNumber)])
     Sample.builtin !! "USD" = Some "".
Proof.
  apply (fetchCurrency_only_accepted_definitions (H := Sample.host)
           (λ u : gmap string string, u !! "USD" = Some "")).
  - reflexivity.
  - intros currency r name u u' _ _ _ Hkeep. simpl.
    destruct (u !! name) eqn:Hname; [discriminate|]. intros [= <-].
    rewrite lookup_insert_ne; [done|]. intros ->. congruence.
Defined.

(** X16: the entries that the guard rejects have no effect at all: the
    request over a mapping gives the engine the request over the entries
    that pass the guard gives, and a mapping of rejected entries only
    leaves the engine as it was. *)
Theorem rejected_entries_have_no_effect {number Units : Type}
    {H : CurrencyHost number Units}
    (entries : list (string * JsonValue number)) (units : Units) :
  fetchCurrency (Rates entries) units
  = fetchCurrency (Rates (filter (λ e, skipEntry e.1 e.2 = false) entries)) units
  ∧ (Forall (λ e, skipEntry e.1 e.2 = true) entries →
     fetchCurrency (Rates entries) units = units).
Proof.
  split; [apply registerCurrencies_skips|].
  intros Hall. simpl. rewrite registerCurrencies_skips.
  replace (filter _ entries) with (@nil (string * JsonValue number)); [done|].
  symmetry. induction Hall as [|e entries He Hall IH]; [done|].
  rewrite filter_cons. destruct (decide _) as [Hkeep|_]; [congruence|done].
Qed.

Lemma rejected_entries_have_no_effect_witness :
  @fetchCurrency _ _ Sample.host
     (Rates [("usd", JNumber Sample.One); ("1inch", JNumber Sample.Two);
             ("xdr", JNumber Sample.Zero); ("nan", JNumber Sample.NotANumber);
             ("txt", JNotNumber)])
     Sample.builtin
  = Sample.builtin.
Proof.
  apply (proj2 (rejected_entries_have_no_effect (H := Sample.host) _ Sample.builtin)).
  repeat constructor.
Defined.

(** ** The ordinary assignment *)
Module AssignmentFacts.
Import Js.

Lemma split_go_before_eq cur name rest :
  includes "=" name = false →
  split_go "=" 0 cur (name +:+ String "=" rest)
  = String.rev_app cur name :: split "=" rest.
Proof.
  revert cur. induction name as [|c name IH]; intros cur Hname.
  - change ("" +:+ String "=" rest) with (String "=" rest). cbn [split_go].
    by rewrite JsFacts.prefix_single, bool_decide_eq_true_2.
  - change (String c name +:+ String "=" rest)
      with (String c (name +:+ String "=" rest)).
    rewrite SeparatorFacts.includes_eq_cons in Hname.
    apply orb_false_iff in Hname as [Hc Hname].
    cbn [split_go]. rewrite JsFacts.prefix_single, Hc. by rewrite IH.
Qed.

End AssignmentFacts.

Lemma single_separator_parts (name remainder : string) :
  Js.includes "=" name = false →
  Js.includes "=" remainder = false →
  assignmentParts (name +:+ String "=" remainder)
  = Some (Js.trim name, Js.trim remainder).
Proof.
  intros Hname Hrem. unfold assignmentParts, Js.split.
  rewrite (AssignmentFacts.split_go_before_eq _ _ _ Hname).
  unfold Js.split. by rewrite JsFacts.split_go_no_sep.
Qed.

(** X17: on a text with a single ['='] the assignment is split as expected:
    the name is the trimmed text before the ['='] and the expression the
    trimmed text after it. *)
Theorem single_separator_split (name remainder : string) :
  Js.includes "=" name = false →
  Js.includes "=" remainder = false →
  assignmentParts (name +:+ String "=" remainder)
  = Some (Js.trim name, Js.trim remainder).
Proof.
  intros Hname Hrem. unfold assignmentParts, Js.split.
  rewrite (AssignmentFacts.split_go_before_eq _ _ _ Hname).
  unfold Js.split. rewrite JsFacts.split_go_no_sep by done.
  reflexivity.
Qed.

Lemma single_separator_split_witness :
  assignmentParts "totalData = users * dataPerUser"
  = Some ("totalData", "users * dataPerUser").
Proof.
  apply (single_separator_split "totalData " " users * dataPerUser"); reflexivity.
Defined.

(** X18: mounting reads the texts only: two stored sequences with the same
    texts, mounted over the same binding table, end with the same line
    records and the same table, whatever results, flags and messages were
    stored. *)
Theorem onMounted_reads_texts_only {V : Type} {E : MathEngine V}
    (fuel : nat) (stored1 stored2 : list CalculatorLine) (st st1 : State V) :
  input <$> stored1 = input <$> stored2 →
  onMounted fuel (Some stored1) st = Some (Returns st1) →
  ∃ st2, onMounted fuel (Some stored2) st = Some (Returns st2)
         ∧ lines st2 = lines st1
         ∧ variables st2 = variables st1.
Proof.
  unfold onMounted, evaluateAllLines. simpl. intros Htexts Hrun.
  assert (length stored2 = length stored1) as Hlen.
  { by rewrite <- (length_fmap input), <- Htexts, length_fmap. }
  set (loaded1 := mkState stored1 (variables st) (evaluated st)) in *.
  set (loaded2 := mkState stored2 (variables st) (evaluated st)).
  assert (agree (λ _, False) loaded1 loaded2) as Hag by (split_and!; done).
  destruct (agree_forEach _ _ _ _ _ _ Hag Hrun) as (st2 & Hrun2 & Hv & Hin & Hl).
  exists st2. rewrite Hlen. split_and!; [done| |done].
  pose proof (forEachIndex_inputs _ _ _ _ Hrun) as Hin1. simpl in Hin1.
  assert (length (lines st1) = length stored1) as Hlen1.
  { by rewrite <- (length_fmap input), Hin1, length_fmap. }
  assert (length (lines st2) = length stored1) as Hlen2.
  { by rewrite <- (length_fmap input), <- Hin, length_fmap. }
  apply list_eq. intros j. destruct (decide (j < length stored1)) as [Hj|Hj].
  - symmetry. apply Hl. right. apply elem_of_seq. lia.
  - rewrite !(proj2 (lookup_ge_None _ _)); [done|lia..].
Qed.

Lemma onMounted_reads_texts_only_witness :
  let stored1 := [mkLine "a = 2" "" false ""; mkLine "a + a" "" false ""] in
  let stored2 := [mkLine "a = 2" "7" false ""; mkLine "a + a" "Error" true "stale"] in
  let st := mkState [] (∅ : gmap string N) [] in
  let st1 := mkState [mkLine "a = 2" "2" false ""; mkLine "a + a" "4" false ""]
                     ({[ "a" := 2%N ]} : gmap string N) [0; 1; 1] in
  ∃ st2, @onMounted N Calc.engine 5 (Some stored2) st = Some (Returns st2)
         ∧ lines st2 = lines st1
         ∧ variables st2 = variables st1.
Proof.
  intros stored1 stored2 st st1.
  apply (onMounted_reads_texts_only (E := Calc.engine) 5 stored1 stored2 st st1).
  - reflexivity.
  - vm_compute. reflexivity.
Defined.

Lemma includes_eq_middle (name rest : string) :
  Js.includes "=" (name +:+ String "=" rest) = true.
Proof.
  induction name as [|c name IH].
  - change ("" +:+ String "=" rest) with (String "=" rest).
    by rewrite SeparatorFacts.includes_eq_cons, bool_decide_eq_true_2.
  - change (String c name +:+ String "=" rest)
      with (String c (name +:+ String "=" rest)).
    by rewrite SeparatorFacts.includes_eq_cons, IH, orb_true_r.
Qed.



(** ** A second full pass *)
Section ReferenceFacts.
Context {V : Type} `{!MathEngine V}.
Implicit Types (st : State V) (line : CalculatorLine) (T : gmap string V).

Lemma evaluateOwn_eq index line st :
  evaluateOwn index line st
  = (mkState (<[index := ownRecord (input line) (variables st)]> (lines st))
             (ownTable (input line) (variables st)) (evaluated st),
     negb (skipped (Js.trim (input line)))).
Proof.
  unfold evaluateOwn, ownRecord, ownTable. destruct (skipped _); [done|].
  by destruct (tryBlock _ _) as [vars [res|msg]].
Qed.

Lemma ownTable_footprint text T name :
  assignedName text ≠ Some name → ownTable text T !! name = T !! name.
Proof.
  intros Hname.
  pose proof (evaluateOwn_eq 0 (mkLine text "" false "") (mkState [] T [])) as Heq.
  by apply (evaluateOwn_footprint _ _ _ _ _ name) in Heq.
Qed.

(** The try block reads the table through [math.evaluate] only: on two
    tables on which that call answers alike it ends alike, and writes the
    same binding or none. *)
Lemma tryBlock_factor input T T' :
  (∀ e, evaluatedExpr input = Some e → math_evaluate e T = math_evaluate e T') →
  (tryBlock input T).2 = (tryBlock input T').2
  ∧ (((tryBlock input T).1 = T ∧ (tryBlock input T').1 = T')
     ∨ ∃ name value, (tryBlock input T).1 = <[name := value]> T
                     ∧ (tryBlock input T').1 = <[name := value]> T').
Proof.
  unfold evaluatedExpr, tryBlock. intros Hsame.
  destruct (Js.includes "=" input).
  - destruct (assignmentParts input) as [[varName expression]|]; [|by split; [|left]].
    destruct (Js.includes " to " expression).
    + destruct (conversionParts expression) as [[fromExpr toUnit]|];
        [|by split; [|left]].
      unfold mbind, try_bind, call, assign. rewrite <- (Hsame _ eq_refl).
      destruct (math_evaluate fromExpr T) as [valueWithUnit|]; [|by split; [|left]].
      destruct (math_to valueWithUnit toUnit) as [converted|]; [|by split; [|left]].
      destruct (decide (varName = "__proto__")); simpl.
      * by destruct (math_format converted); (split; [|left]).
      * by destruct (math_format converted); (split; [|right; eauto]).
    + unfold mbind, try_bind, call, assign. rewrite <- (Hsame _ eq_refl).
      destruct (math_evaluate expression T) as [value|]; [|by split; [|left]].
      destruct (decide (varName = "__proto__")); simpl.
      * by destruct (math_format value); (split; [|left]).
      * by destruct (math_format value); (split; [|right; eauto]).
  - unfold mbind, try_bind, call. rewrite <- (Hsame _ eq_refl).
    destruct (math_evaluate input T) as [value|]; [|by split; [|left]].
    by destruct (math_format value); (split; [|left]).
Qed.

Lemma own_factor text T T' :
  (∀ e, evaluatedText text = Some e → math_evaluate e T = math_evaluate e T') →
  ownRecord text T = ownRecord text T'
  ∧ ((ownTable text T = T ∧ ownTable text T' = T')
     ∨ ∃ name value, ownTable text T = <[name := value]> T
                     ∧ ownTable text T' = <[name := value]> T').
Proof.
  unfold evaluatedText, ownRecord, ownTable. destruct (skipped _).
  - intros _. split; [done|by left].
  - intros Hsame. destruct (tryBlock_factor _ _ _ Hsame) as [Hres Htables].
    by rewrite Hres.
Qed.

Section Tables.
Variables (texts : list string) (T0 : gmap string V).

Lemma tableAt_S k text :
  texts !! k = Some text →
  tableAt texts T0 (S k) = ownTable text (tableAt texts T0 k).
Proof.
  intros Htext. unfold tableAt, tableAfter.
  by rewrite (take_S_r _ _ _ Htext), foldl_app.
Qed.

Lemma tableAt_ge k :
  length texts ≤ k → tableAt texts T0 k = tableAfter texts T0.
Proof. intros Hk. unfold tableAt. by rewrite take_ge. Qed.

Lemma closedFrom_final k name :
  closedFrom texts T0 k name →
  tableAt texts T0 k !! name = tableAfter texts T0 !! name.
Proof.
  intros Hclosed.
  assert (∀ m, tableAt texts T0 (k + m) !! name = tableAt texts T0 k !! name) as Hm.
  { induction m as [|m IH]; [by rewrite Nat.add_0_r|].
    rewrite Nat.add_succ_r, Hclosed by lia. done. }
  rewrite <- (Hm (length texts)). by rewrite tableAt_ge by lia.
Qed.

Lemma closedFrom_past k name : length texts ≤ k → closedFrom texts T0 k name.
Proof. intros Hk j Hj. by rewrite !tableAt_ge by lia. Qed.

Lemma settledFrom_full k T :
  length texts ≤ k → settledFrom texts T0 k T →
  ∀ name, T !! name = tableAfter texts T0 !! name.
Proof. intros Hk Hset name. apply Hset. by apply closedFrom_past. Qed.

Lemma full_settledFrom k T :
  (∀ name, T !! name = tableAfter texts T0 !! name) → settledFrom texts T0 k T.
Proof. intros Hfull name _. apply Hfull. Qed.

Lemma settledFrom_le k k' T :
  k ≤ k' → settledFrom texts T0 k' T → settledFrom texts T0 k T.
Proof.
  intros Hk Hset name Hclosed. apply Hset. intros j Hj. apply Hclosed. lia.
Qed.

Lemma settledFrom_start : settledFrom texts T0 0 T0.
Proof. intros name Hclosed. by rewrite <- (closedFrom_final 0). Qed.

(** Every line is handed a text whose value is the same on every table that
    holds the final values under the names closed from that line on. *)
Hypothesis same_reads : ∀ i text T e,
  texts !! i = Some text → settledFrom texts T0 i T →
  evaluatedText text = Some e →
  math_evaluate e T = math_evaluate e (tableAt texts T0 i).

Lemma own_keeps i text T :
  texts !! i = Some text → settledFrom texts T0 i T →
  ownRecord text T = ownRecord text (tableAt texts T0 i)
  ∧ settledFrom texts T0 (S i) (ownTable text T).
Proof.
  intros Htext Hset.
  destruct (own_factor text T (tableAt texts T0 i)) as [Hrec Htables].
  { intros e He. by apply (same_reads i text). }
  split; [done|]. intros name Hclosed.
  rewrite <- (closedFrom_final _ _ Hclosed), (tableAt_S _ _ Htext).
  assert (tableAt texts T0 (S i) !! name = tableAt texts T0 i !! name →
          T !! name = tableAt texts T0 i !! name) as Hback.
  { intros Hsame. rewrite (closedFrom_final i); [apply Hset|];
      intros j Hj; (destruct (decide (j = i)) as [->|]; [done|apply Hclosed; lia]). }
  rewrite (tableAt_S _ _ Htext) in Hback.
  destruct Htables as [[Hown Href]|(name' & value & Hown & Href)]; rewrite Hown.
  - rewrite Href in Hback |- *. by apply Hback.
  - rewrite Href in Hback |- *. destruct (decide (name' = name)) as [->|Hne].
    + by rewrite !lookup_insert_eq.
    + rewrite lookup_insert_ne in Hback by done.
      rewrite !lookup_insert_ne by done. by apply Hback.
Qed.

Lemma input_ownRecord text T : input (ownRecord text T) = text.
Proof.
  unfold ownRecord. destruct (skipped _); [done|].
  by destruct (tryBlock _ _).2.
Qed.

Lemma own_step (P : nat → Prop) i line st :
  input <$> lines st = texts → lines st !! i = Some line →
  settledFrom texts T0 i (variables st) → referenceAt texts T0 P st →
  ∀ st1 b, evaluateOwn i line (enter i st) = (st1, b) →
    input <$> lines st1 = texts
    ∧ settledFrom texts T0 (S i) (variables st1)
    ∧ referenceAt texts T0 (λ j, P j ∨ j = i) st1
    ∧ b = negb (skipped (Js.trim (input line))).
Proof.
  intros Hin Hline Hset Href st1 b. rewrite evaluateOwn_eq. intros [= <- <-].
  assert (texts !! i = Some (input line)) as Htext.
  { by rewrite <- Hin, list_lookup_fmap, Hline. }
  destruct (own_keeps _ _ _ Htext Hset) as [Hrec Hset']. simpl.
  split_and!; [|done| |done].
  - rewrite list_fmap_insert, input_ownRecord, Hin. by apply list_insert_id.
  - intros j line' Hj. simpl. destruct (decide (j = i)) as [->|Hne].
    + rewrite list_lookup_insert_eq by (by eapply lookup_lt_Some).
      intros [= <-]. eauto.
    + rewrite list_lookup_insert_ne by done. apply Href. by destruct Hj.
Qed.

Lemma referenceAt_weaken (P Q : nat → Prop) st :
  (∀ j, Q j → P j) → referenceAt texts T0 P st → referenceAt texts T0 Q st.
Proof. intros HQP Href j line Hj. apply Href. by apply HQP. Qed.

(** A cascade that starts on a table settled from its line on writes the
    records of the reference pass and leaves a table settled from the next
    line on. *)
Lemma reference_run fuel :
  (∀ i st o (P : nat → Prop),
      input <$> lines st = texts → settledFrom texts T0 i (variables st) →
      referenceAt texts T0 P st → i < length texts →
      evaluateLine fuel i st = Some o →
      ∃ st', o = Returns st' ∧ input <$> lines st' = texts
             ∧ settledFrom texts T0 (S i) (variables st')
             ∧ referenceAt texts T0 (λ j, P j ∨ j = i) st')
  ∧ (∀ i st o (P : nat → Prop),
      input <$> lines st = texts → settledFrom texts T0 i (variables st) →
      referenceAt texts T0 P st →
      updateLoop fuel i st = Some o →
      ∃ st', o = Returns st' ∧ input <$> lines st' = texts
             ∧ settledFrom texts T0 (length texts) (variables st')
             ∧ referenceAt texts T0 P st').
Proof.
  induction fuel as [|fuel [IHe IHl]]; split.
  - discriminate.
  - intros i st o P Hin Hset Href. rewrite updateLoop_eq.
    destruct (i <? _) eqn:Hi; [done|]. intros [= <-].
    apply Nat.ltb_ge in Hi. rewrite <- (length_fmap input), Hin in Hi.
    exists st. split_and!; try done. by apply (settledFrom_le _ i).
  - intros i st o P Hin Hset Href Hi. rewrite evaluateLine_S.
    destruct (lines st !! i) as [line|] eqn:Hline.
    2:{ apply lookup_ge_None in Hline. rewrite <- Hin, length_fmap in Hi. lia. }
    destruct (evaluateOwn i line (enter i st)) as [st1 b] eqn:Hown.
    destruct (own_step P i line st Hin Hline Hset Href _ _ Hown)
      as (Hin1 & Hset1 & Href1 & _).
    destruct b.
    + rewrite Nat.add_1_r. intros Hloop.
      destruct (IHl _ _ _ _ Hin1 Hset1 Href1 Hloop) as (st' & -> & Hin' & Hset' & Href').
      exists st'. split_and!; try done. apply (settledFrom_le _ (length texts)); [lia|done].
    + intros [= <-]. by exists st1.
  - intros i st o P Hin Hset Href. rewrite updateLoop_eq.
    destruct (i <? _) eqn:Hi.
    + apply Nat.ltb_lt in Hi. rewrite <- (length_fmap input), Hin in Hi.
      destruct (evaluateLine fuel i st) as [o1|] eqn:Hrun; [|done].
      destruct (IHe _ _ _ _ Hin Hset Href Hi Hrun) as (st1 & -> & Hin1 & Hset1 & Href1).
      rewrite Nat.add_1_r. intros Hloop.
      apply (IHl _ _ _ P Hin1 Hset1); [|done].
      eapply referenceAt_weaken; [|exact Href1]. intros j Hj. by left.
    + intros [= <-]. apply Nat.ltb_ge in Hi. rewrite <- (length_fmap input), Hin in Hi.
      exists st. split_and!; try done. by apply (settledFrom_le _ i).
Qed.

Lemma reference_forEach fuel m :
  ∀ k st o (P : nat → Prop),
    input <$> lines st = texts → settledFrom texts T0 k (variables st) →
    referenceAt texts T0 P st → k + m ≤ length texts →
    forEachIndex fuel (seq k m) st = Some o →
    ∃ st', o = Returns st' ∧ input <$> lines st' = texts
           ∧ settledFrom texts T0 (k + m) (variables st')
           ∧ referenceAt texts T0 (λ j, P j ∨ k ≤ j < k + m) st'.
Proof.
  induction m as [|m IH]; intros k st o P Hin Hset Href Hk; simpl.
  - intros [= <-]. exists st. rewrite Nat.add_0_r. split_and!; try done.
    eapply referenceAt_weaken; [|exact Href]. intros j [Hj|Hj]; [done|lia].
  - destruct (evaluateLine fuel k st) as [o1|] eqn:Hrun; [|done].
    destruct (proj1 (reference_run fuel) _ _ _ _ Hin Hset Href ltac:(lia) Hrun)
      as (st1 & -> & Hin1 & Hset1 & Href1).
    intros Hrest.
    destruct (IH _ _ _ _ Hin1 Hset1 Href1 ltac:(lia) Hrest)
      as (st' & -> & Hin' & Hset' & Href').
    exists st'. rewrite Nat.add_succ_r. split_and!; try done.
    eapply referenceAt_weaken; [|exact Href']. simpl. intros j [Hj|Hj]; [auto|].
    destruct (decide (j = k)); [auto|right; lia].
Qed.

(** A full pass that starts on a table settled from the first line on ends
    with the table and the records of the reference pass. *)
Lemma reference_pass fuel st o :
  input <$> lines st = texts → settledFrom texts T0 0 (variables st) →
  evaluateAllLines fuel st = Some o →
  ∃ st', o = Returns st' ∧ input <$> lines st' = texts
         ∧ variables st' = tableAfter texts T0
         ∧ ∀ j line, lines st' !! j = Some line →
             ∃ text, texts !! j = Some text
                     ∧ line = ownRecord text (tableAt texts T0 j).
Proof.
  intros Hin Hset. unfold evaluateAllLines.
  rewrite <- (length_fmap input), Hin. intros Hrun.
  destruct (reference_forEach fuel (length texts) 0 st o (λ _, False) Hin Hset)
    as (st' & -> & Hin' & Hset' & Href'); [by intros j line Hj|simpl; lia|done|].
  exists st'. split_and!; try done.
  - apply map_eq. intros name. by apply (settledFrom_full (length texts)).
  - intros j line Hline. apply Href'; [|done]. right.
    apply lookup_lt_Some in Hline. rewrite <- (length_fmap input), Hin' in Hline. lia.
Qed.

End Tables.

(** Whether a call returns with a given fuel depends on the texts of the
    lines only. *)
Lemma runs_alike fuel :
  (∀ i sa sb oa,
      input <$> lines sa = input <$> lines sb →
      evaluateLine fuel i sa = Some oa →
      ∃ ob, evaluateLine fuel i sb = Some ob ∧ sameKind oa ob)
  ∧ (∀ i sa sb oa,
      input <$> lines sa = input <$> lines sb →
      updateLoop fuel i sa = Some oa →
      ∃ ob, updateLoop fuel i sb = Some ob ∧ sameKind oa ob).
Proof.
  induction fuel as [|fuel [IHe IHl]]; split.
  - discriminate.
  - intros i sa sb oa Hin. rewrite !updateLoop_eq.
    rewrite <- (length_fmap input (lines sa)), Hin, length_fmap.
    destruct (i <? _); [done|]. intros [= <-]. by eexists.
  - intros i sa sb oa Hin. rewrite !evaluateLine_S.
    pose proof (f_equal (λ l, l !! i) Hin) as Hi. simpl in Hi.
    rewrite !list_lookup_fmap in Hi.
    destruct (lines sa !! i) as [la|], (lines sb !! i) as [lb|];
      simpl in Hi; try discriminate.
    + injection Hi as Hi. rewrite !evaluateOwn_eq, <- Hi.
      destruct (skipped _); simpl.
      * intros [= <-]. by eexists.
      * apply IHl. simpl. rewrite !list_fmap_insert, !input_ownRecord.
        by rewrite Hin, Hi.
    + intros [= <-]. by eexists.
  - intros i sa sb oa Hin. rewrite !(updateLoop_eq (S fuel)).
    rewrite <- (length_fmap input (lines sa)), Hin, length_fmap.
    destruct (i <? _); [|intros [= <-]; by eexists].
    destruct (evaluateLine fuel i sa) as [oa1|] eqn:Hrun; [|done].
    destruct (IHe _ _ _ _ Hin Hrun) as (ob1 & Hrunb & Hkind). rewrite Hrunb.
    pose proof (evaluateLine_inputs _ _ _ _ Hrun) as Ha.
    pose proof (evaluateLine_inputs _ _ _ _ Hrunb) as Hb.
    destruct oa1 as [sa1|sa1], ob1 as [sb1|sb1]; try done.
    + apply IHl. simpl in Ha, Hb. by rewrite Ha, Hb.
    + intros [= <-]. by eexists.
Qed.

Lemma runs_forEach fuel indices :
  ∀ sa sb oa,
    input <$> lines sa = input <$> lines sb →
    forEachIndex fuel indices sa = Some oa →
    ∃ ob, forEachIndex fuel indices sb = Some ob ∧ sameKind oa ob.
Proof.
  induction indices as [|index rest IH]; intros sa sb oa Hin; simpl.
  - intros [= <-]. by eexists.
  - destruct (evaluateLine fuel index sa) as [oa1|] eqn:Hrun; [|done].
    destruct (proj1 (runs_alike fuel) _ _ _ _ Hin Hrun) as (ob1 & Hrunb & Hkind).
    rewrite Hrunb.
    pose proof (evaluateLine_inputs _ _ _ _ Hrun) as Ha.
    pose proof (evaluateLine_inputs _ _ _ _ Hrunb) as Hb.
    destruct oa1 as [sa1|sa1], ob1 as [sb1|sb1]; try done.
    + apply IH. simpl in Ha, Hb. by rewrite Ha, Hb.
    + intros [= <-]. by eexists.
Qed.

(** A name that no line from [i] on assigns is closed from [i]. *)
Lemma unassigned_closedFrom (texts : list string) T0 i name :
  (∀ j text, i ≤ j → texts !! j = Some text → assignedName text ≠ Some name) →
  closedFrom texts T0 i name.
Proof.
  intros Hfree j Hj. destruct (texts !! j) as [text|] eqn:Htext.
  - rewrite (tableAt_S _ _ _ _ Htext). apply ownTable_footprint. by eapply Hfree.
  - apply lookup_ge_None in Htext. by rewrite !tableAt_ge by lia.
Qed.

End ReferenceFacts.

Module CalcFacts.
Import Calc.

Lemma term_agree (T T' : gmap string N) (t : string) :
  (numeral t = None → T !! t = T' !! t) → term T t = term T' t.
Proof.
  unfold term. destruct (numeral t); [done|]. intros Hsame.
  by rewrite Hsame.
Qed.

Lemma sum_agree (T T' : gmap string N) (terms : list string) :
  Forall (λ t, numeral t = None → T !! t = T' !! t) terms →
  sum T terms = sum T' terms.
Proof.
  induction 1 as [|t rest Ht _ IH]; [done|].
  simpl. by rewrite (term_agree _ _ _ Ht), IH.
Qed.

End CalcFacts.




